(** * A shallow embedding of gemelli's CTF driver ([gemelli/ctf.py],
    [ctf_helper]) and of its standalone command wrappers
    ([gemelli/scripts/_standalone_transforms.py]).

    Tables are modelled as pandas and biom model them: biom tables as
    identifier lists plus a dense observation-by-sample matrix, pandas
    frames column-major with an identifier index.  Python exceptions are an
    explicit result type; the in-place mutation of the caller's biom table
    is modelled by returning the caller's table state next to the result. *)

From Stdlib Require Import ZArith.
From Stdlib Require String.
From Stdlib Require Import Ascii.
From stdpp Require Import base list sorting strings gmap pretty.

Open Scope Z_scope.

(* ------------------------------------------------------------------ *)
(** ** Python values and exceptions *)

Inductive exn :=
| ValueError (msg : string)
| KeyError (key : string)
| TypeError (msg : string)
| AttributeError (msg : string)
| FileNotFoundError (path : string)
| UsageError (msg : string).

Inductive pyres (A : Type) :=
| Ok (a : A)
| Raise (e : exn).
Arguments Ok {A} a.
Arguments Raise {A} e.

(** [x in l] for Python lists and sets of identifiers. *)
Definition mem (x : string) (l : list string) : bool := bool_decide (x ∈ l).

(** [len(l) != len(set(l))]. *)
Definition has_dup (l : list string) : bool :=
  negb (Nat.eqb (length l) (length (remove_dups l))).

(** [set(a) & set(b)], enumerated in some order; only membership and
    emptiness of the result are ever used by the code. *)
Definition py_set_inter (a b : list string) : list string :=
  filter (fun x => x ∈ b) (remove_dups a).

(** Python's [sum] over a list of counts. *)
Definition sum_list (l : list Z) : Z := foldr Z.add 0 l.

(* ------------------------------------------------------------------ *)
(** ** biom tables *)

Module Biom.

(** A biom [Table]: observation (feature) ids, sample ids and the
    observation-by-sample count matrix, one row per observation. *)
Record table := mktable {
  obs_ids : list string;
  samp_ids : list string;
  data : list (list Z)
}.

Inductive axis := ASample | AObservation.

Definition ids (ax : axis) (t : table) : list string :=
  match ax with ASample => samp_ids t | AObservation => obs_ids t end.

(** Keep the entries of [row] whose mask bit is set. *)
Fixpoint mask_list {A} (mask : list bool) (row : list A) : list A :=
  match mask, row with
  | b :: mask', x :: row' => if b then x :: mask_list mask' row' else mask_list mask' row'
  | _, _ => []
  end.

(** [table.filter(ids_to_keep, axis=axis, inplace=True)]: keeps, in table
    order, the ids of [axis] that occur in [keep]. *)
Definition filter (keep : list string) (ax : axis) (t : table) : table :=
  match ax with
  | ASample =>
      let mask := map (fun s => mem s keep) (samp_ids t) in
      mktable (obs_ids t) (mask_list mask (samp_ids t))
              (map (mask_list mask) (data t))
  | AObservation =>
      let mask := map (fun f => mem f keep) (obs_ids t) in
      mktable (mask_list mask (obs_ids t)) (samp_ids t) (mask_list mask (data t))
  end.

(** Column [j] of the matrix (numpy indexing, in range for a well-formed
    table). *)
Definition column (t : table) (j : nat) : list Z := map (fun row => nth j row 0) (data t).

(** [table.sum(axis)]: one total per id of [axis]. *)
Definition sum (ax : axis) (t : table) : list Z :=
  match ax with
  | ASample => map (fun j => sum_list (column t j)) (seq 0 (length (samp_ids t)))
  | AObservation => map sum_list (data t)
  end.

(** [table.ids(axis)[table.sum(axis) >= min_sum]]. *)
Definition ids_meeting (ids : list string) (sums : list Z) (min_sum : Z) : list string :=
  mask_list (map (fun s => Z.leb min_sum s) sums) ids.

(** The matrix has one row per observation and one entry per sample. *)
Definition well_formed (t : table) : Prop :=
  length (data t) = length (obs_ids t) /\
  Forall (fun row => length row = length (samp_ids t)) (data t).

End Biom.

Import Biom.

(* ------------------------------------------------------------------ *)
(** ** Alignment and filtering ([ctf_helper], lines 94-134) *)

Definition msg_dup_samples : string := "Data-table contains duplicate sample IDs".
Definition msg_dup_features : string := "Data-table contains duplicate feature IDs".
Definition msg_no_features_fmeta : string :=
  "No more features left.  Check to make sure that the sample names between `feature-metadata` and `table` are consistent".
Definition msg_no_features_smeta : string :=
  "No more features left.  Check to make sure that the sample names between `sample-metadata` and `table` are consistent".

(** Lines 95-100: the duplicate-id validation. *)
Definition validate_ids (t : table) : option exn :=
  if has_dup (samp_ids t) then Some (ValueError msg_dup_samples)
  else if has_dup (obs_ids t) then Some (ValueError msg_dup_features)
  else None.

(** Lines 124-129: the loop over [zip(['sample', 'observation'],
    [min_sample_count, min_feature_count])]. *)
Definition filter_min_counts (msc mfc : Z) (t : table) : table :=
  fold_left (fun t '(ax, min_sum) =>
               Biom.filter (ids_meeting (ids ax t) (Biom.sum ax t) min_sum) ax t)
            [(ASample, msc); (AObservation, mfc)] t.

(** Lines 104-121 once validation has passed: intersect ids, raise on an
    empty intersection, otherwise filter the table in place. *)
Definition align_ids (t : table) (meta_ids : list string)
    (fmeta : option (list string)) : pyres table :=
  let fidx := match fmeta with
              | Some fm => Some (py_set_inter (obs_ids t) fm)
              | None => None
              end in
  let chk := match fidx with
             | Some fi => if Nat.eqb (length fi) 0 then Some (ValueError msg_no_features_fmeta) else None
             | None => None
             end in
  match chk with
  | Some e => Raise e
  | None =>
      let sidx := py_set_inter (samp_ids t) meta_ids in
      if Nat.eqb (length sidx) 0 then Raise (ValueError msg_no_features_smeta)
      else
        let t1 := match fidx with
                  | Some fi => Biom.filter fi AObservation t
                  | None => t
                  end in
        Ok (Biom.filter sidx ASample t1)
  end.

(** Lines 94-134 of [ctf_helper]: returns the outcome (the filtered table
    that is then densified and built into a tensor, or the exception) and the
    state of the caller's table object after the step, since every filter is
    [inplace=True] on the object the caller passed in. *)
Definition ctf_align (t : table) (meta_ids : list string)
    (fmeta : option (list string)) (msc mfc : Z) : pyres table * table :=
  match validate_ids t with
  | Some e => (Raise e, t)
  | None =>
      match align_ids t meta_ids fmeta with
      | Raise e => (Raise e, t)
      | Ok t2 => let t4 := filter_min_counts msc mfc t2 in (Ok t4, t4)
      end
  end.

(* ------------------------------------------------------------------ *)
(** ** A [pyres] monad for the code paths that may raise *)

Global Instance pyres_ret : MRet pyres := fun A a => Ok a.
Global Instance pyres_bind : MBind pyres := fun A B f m =>
  match m with Ok a => f a | Raise e => Raise e end.

(* ------------------------------------------------------------------ *)
(** ** pandas frames *)

Module Frame.

Inductive dtype := DBool | DInt | DFloat | DObject.

(** A cell: a number, a string, a Python bool, or a missing value (NaN). *)
Inductive cell := CNum (z : Z) | CStr (s : string) | CBool (b : bool) | CNaN.

Global Instance cell_eq_dec : EqDecision cell.
Proof. solve_decision. Defined.

Record column := mkcol { cname : string; cdtype : dtype; cells : list cell }.

(** A [DataFrame], column-major: its index (of keys [K]), the index's name
    and its columns, each holding one cell per index entry. *)
Record frame (K : Type) := mkframe {
  index : list K;
  iname : option string;
  columns : list column
}.
Arguments mkframe {K} index iname columns.
Arguments index {K} f.
Arguments iname {K} f.
Arguments columns {K} f.

Definition col_names {K} (df : frame K) : list string := map cname (columns df).

Definition with_columns {K} (df : frame K) (cs : list column) : frame K :=
  mkframe (index df) (iname df) cs.

(** [df.drop(names, axis=1)]: [KeyError] if a name is not a column. *)
Definition drop_cols {K} (names : list string) (df : frame K) : pyres (frame K) :=
  match list_find (fun n => n ∉ col_names df) names with
  | Some (_, n) => Raise (KeyError n)
  | None => Ok (with_columns df (List.filter (fun c => negb (mem (cname c) names)) (columns df)))
  end.

(** [df[names]]: the columns of each name, in the order of [names]. *)
Definition select_cols {K} (names : list string) (df : frame K) : pyres (frame K) :=
  match list_find (fun n => n ∉ col_names df) names with
  | Some (_, n) => Raise (KeyError n)
  | None => Ok (with_columns df
                 (flat_map (fun n => List.filter (fun c => String.eqb (cname c) n) (columns df)) names))
  end.

(** [df.eq(s).any(axis=0)] for one column. *)
Definition eq_any (s : string) (c : column) : bool :=
  existsb (fun x => bool_decide (x = CStr s)) (cells c).

Definition is_bool_dtype (c : column) : bool :=
  match cdtype c with DBool => true | _ => false end.

(** Row [i] of a frame (numpy positional access). *)
Definition row_at {K} (df : frame K) (i : nat) : list cell :=
  map (fun c => nth i (cells c) CNaN) (columns df).

(** Position of a key in the index ([Index.get_loc] on a unique index). *)
Definition get_loc (k : string) (idx : list string) : option nat :=
  fst <$> list_find (fun x => x = k) idx.

(** The row labelled [k], if any. *)
Definition row_of (df : frame string) (k : string) : option (list cell) :=
  row_at df <$> get_loc k (index df).

(** [df.reindex(new)]: rows looked up by label, missing labels give NaN. *)
Definition reindex (df : frame string) (new : list string) : frame string :=
  mkframe new (iname df)
    (map (fun c => mkcol (cname c) (cdtype c)
                     (map (fun k => match get_loc k (index df) with
                                    | Some i => nth i (cells c) CNaN
                                    | None => CNaN
                                    end) new))
         (columns df)).

(** Python's string order (code points; the model's strings are ASCII). *)
Definition str_le (a b : string) : Prop := String.leb a b = true.
Global Instance str_le_dec : RelDecision str_le.
Proof. intros a b. unfold str_le. apply _. Defined.

(** The combined index of [concat(..., sort=True)]: the union of the two
    indexes (the index itself when they are equal), then sorted. *)
Definition combined_index (a b : list string) : list string :=
  merge_sort str_le (if bool_decide (a = b) then a else a ++ List.filter (fun x => negb (mem x a)) b).

(** [concat([a, b], axis=1, sort=True)]. *)
Definition concat_cols (a b : frame string) : frame string :=
  let idx := combined_index (index a) (index b) in
  mkframe idx None (columns (reindex a idx) ++ columns (reindex b idx)).

(** Keep the rows whose mask bit is set. *)
Definition filter_rows {K} (mask : list bool) (df : frame K) : frame K :=
  mkframe (mask_list mask (index df)) (iname df)
    (map (fun c => mkcol (cname c) (cdtype c) (mask_list mask (cells c))) (columns df)).

(** [df.dropna(subset=subset)] (how='any'): drop the rows with a NaN in
    one of the columns named in [subset]. *)
Definition dropna_subset {K} (subset : list string) (df : frame K) : frame K :=
  filter_rows
    (map (fun i => forallb (fun c => negb (mem (cname c) subset) || bool_decide (nth i (cells c) CNaN ≠ CNaN))
                           (columns df))
         (seq 0 (length (index df))))
    df.

(** [df.dropna(axis=0)]: drop the rows with a NaN anywhere. *)
Definition dropna_rows {K} (df : frame K) : frame K :=
  dropna_subset (col_names df) df.

End Frame.

Import Frame.

(* ------------------------------------------------------------------ *)
(** ** Sample metadata ([ctf_helper], lines 65-88) *)

(** The two accepted forms of [sample_metadata]: a raw [DataFrame], or a
    [qiime2.Metadata] object, seen through its [to_dataframe()] view. *)
Inductive md_input :=
| MDataFrame (df : frame string)
| MQiime (md : frame string).

Section Metadata.

(** [qiime2.Metadata(df).to_dataframe()]: the validation round trip of the
    external metadata library, which may raise. *)
Variable q2_roundtrip : frame string -> pyres (frame string).

(** Lines 65-88: returns [(sample_metadata, all_sample_metadata)], the
    subject/state columns and the auxiliary columns kept for the output. *)
Definition ctf_metadata (md : md_input) (individual_id_column : string)
    (state_columns : list string) : pyres (frame string * frame string) :=
  let keep_cols := state_columns ++ [individual_id_column] in
  match md with
  | MDataFrame df =>
      all_sample_metadata ← drop_cols keep_cols df;
      sample_metadata ← select_cols keep_cols df;
      (* drop any metadata columns that are boolean *)
      let all1 := with_columns all_sample_metadata
                    (List.filter (fun c => negb (is_bool_dtype c)) (columns all_sample_metadata)) in
      (* repeat to make sure no bools converted to strings are missed *)
      let all2 := with_columns all1
                    (List.filter (fun c => negb (xorb (eq_any "True" c) (eq_any "False" c)))
                                 (columns all1)) in
      sample_metadata' ← q2_roundtrip sample_metadata;
      mret (sample_metadata', all2)
  | MQiime md =>
      all_sample_metadata ← drop_cols keep_cols md;
      sample_metadata ← select_cols keep_cols md;
      mret (sample_metadata, all_sample_metadata)
  end.

(** Lines 89-93: [feature_metadata] through the same validation round
    trip when it is a [DataFrame], through [to_dataframe()] when it is a
    [qiime2.Metadata], and [None] left as it is. *)
Definition feature_md (feature_metadata : option md_input) : pyres (option (frame string)) :=
  match feature_metadata with
  | Some (MDataFrame df) => fm ← q2_roundtrip df; mret (Some fm)
  | Some (MQiime md) => mret (Some md)
  | None => mret None
  end.

(** Lines 65-134 of [ctf_helper]: the metadata steps, then the id
    validation, alignment and count filtering of the table against
    [set(sample_metadata.index)] and [set(feature_metadata.index)]; as for
    [ctf_align], the outcome and the state of the caller's table object. *)
Definition ctf_prepare (t : table) (md : md_input) (individual_id_column : string)
    (state_columns : list string) (feature_metadata : option md_input)
    (msc mfc : Z) : pyres table * table :=
  match ctf_metadata md individual_id_column state_columns with
  | Raise e => (Raise e, t)
  | Ok (sample_metadata, _) =>
      match feature_md feature_metadata with
      | Raise e => (Raise e, t)
      | Ok fm => ctf_align t (index sample_metadata) (index <$> fm) msc mfc
      end
  end.

End Metadata.

(* ------------------------------------------------------------------ *)
(** ** Result assembly ([ctf_helper], lines 150-203) *)

(** The labelled factorization: [TF.subjects], [TF.features],
    [TF.proportion_explained] and [TF.eigvals] (the last two indexed by
    axis name). *)
Record tf_result := mktf {
  subjects : frame string;
  features : frame string;
  proportion_explained : frame string;
  eigvals : frame string
}.

(** [df[name] = vals]: overwrite the column of that name, or append one. *)
Definition set_column {K} (name : string) (vals : list cell) (df : frame K) : frame K :=
  if bool_decide (name ∈ col_names df)
  then with_columns df (map (fun c => if String.eqb (cname c) name then mkcol name DInt vals else c)
                            (columns df))
  else with_columns df (columns df ++ [mkcol name DInt vals]).

(** [df.loc[k, :] = v]: overwrite row [k], or append it (setting with
    enlargement). *)
Definition loc_set_row (k : string) (v : cell) (df : frame string) : frame string :=
  match get_loc k (index df) with
  | Some i => with_columns df (map (fun c => mkcol (cname c) (cdtype c) (<[i := v]> (cells c))) (columns df))
  | None => mkframe (index df ++ [k]) (iname df)
              (map (fun c => mkcol (cname c) (cdtype c) (cells c ++ [v])) (columns df))
  end.

(** Lines 154-158: with two components, a zero [PC3] axis is added. *)
Definition add_pc3 (n_components : Z) (tf : tf_result) : tf_result :=
  if Z.eqb n_components 2 then
    mktf (set_column "PC3" (repeat (CNum 0) (length (index (subjects tf)))) (subjects tf))
         (set_column "PC3" (repeat (CNum 0) (length (index (features tf)))) (features tf))
         (loc_set_row "PC3" (CNum 0) (proportion_explained tf))
         (loc_set_row "PC3" (CNum 0) (eigvals tf))
  else tf.

(** Python's [sub in s] on strings. *)
Definition py_contains (sub s : string) : bool :=
  match String.index 0 sub s with Some _ => true | None => false end.

(** [skbio.OrdinationResults]. *)
Record ordination := mkord {
  short_method_name : string;
  long_method_name : string;
  ord_eigvals : frame string;
  ord_samples : frame string;
  ord_features : frame string;
  ord_proportion_explained : frame string
}.

(** Line 164: [[col for col in TF.features.columns if 'PC' in col]]. *)
Definition keep_PC (tf : tf_result) : list string :=
  List.filter (py_contains "PC") (col_names (features tf)).

(** Lines 160-171. *)
Definition ctf_ordination (tf : tf_result) : pyres ordination :=
  (* only keep PC -- other tools merge metadata *)
  let keep_PC := keep_PC tf in
  samples ← select_cols keep_PC (subjects tf);
  feats ← select_cols keep_PC (features tf);
  mret (mkord "CTF_Biplot" "Compositional Tensor Factorization Biplot"
              (eigvals tf) (dropna_rows samples) (dropna_rows feats)
              (proportion_explained tf)).

(** [dict((ind, ind_i) for ind_i, ind in enumerate(ids))]: a later
    occurrence of an id overrides an earlier one. *)
Definition ind_dict (ids : list string) : gmap string nat :=
  list_to_map (reverse (zip ids (seq 0 (length ids)))).

(** Lines 182-188: the distance matrix of one condition restricted to the
    ids present in the sample metadata, with its paired id list.  [inter]
    is a Python set, enumerated here in the map's order; the positions are
    then sorted. *)
Definition slice_distances {A} (ids : list string) (dist : list (list A))
    (meta_index : list string) : list (list A) * list string :=
  let d := ind_dict ids in
  let inter := List.filter (fun k => mem k meta_index) (map fst (map_to_list d)) in
  let indices := merge_sort (fun i j : nat => (i <= j)%nat) (omap (fun k => d !! k) inter) in
  (map (fun row => omap (fun j => row !! j) indices) (omap (fun i => dist !! i) indices),
   omap (fun i => ids !! i) indices).

(** Lines 192-198: the subject trajectory merged with the auxiliary
    metadata, rows without a trajectory dropped, index renamed. *)
Definition subject_trajectory_out (straj all_sample_metadata : frame string) : frame string :=
  let pre_merge_cols := col_names straj in
  let merged := concat_cols (reindex straj (index all_sample_metadata)) all_sample_metadata in
  let dropped := dropna_subset pre_merge_cols merged in
  mkframe (index dropped) (Some "#SampleID") (columns dropped).

(** Feature ids as the factorization labels them: strings or integers. *)
Inductive pykey := KStr (s : string) | KInt (z : Z).

(** Python's [str] on an id. *)
Definition py_str (k : pykey) : string :=
  match k with KStr s => s | KInt z => pretty z end.

(** Line 201: [ftraj.index = ftraj.index.astype(str)]. *)
Definition feature_trajectory_out (ftraj : frame pykey) : frame string :=
  mkframe (map py_str (index ftraj)) (iname ftraj) (columns ftraj).

(** The body of the loop of lines 177-202 for one condition. *)
Definition assemble_condition {A} (sample_meta_index : list string)
    (all_sample_metadata : frame string) (dist : list (list A))
    (straj : frame string) (ftraj : frame pykey)
    : (list (list A) * list string) * frame string * frame string :=
  (slice_distances (index straj) dist sample_meta_index,
   subject_trajectory_out straj all_sample_metadata,
   feature_trajectory_out ftraj).

(** Lines 174-202: the loop over [zip(tensor.conditions,
    TF.subject_distances, TF.subject_trajectory, TF.feature_trajectory)]. *)
Fixpoint assemble_conditions {A} (sample_meta_index : list string)
    (all_sample_metadata : frame string) (conditions : list string)
    (dists : list (list (list A))) (strajs : list (frame string))
    (ftrajs : list (frame pykey))
    : list (string * ((list (list A) * list string) * frame string * frame string)) :=
  match conditions, dists, strajs, ftrajs with
  | c :: cs, d :: ds, s :: ss, f :: fs =>
      (c, assemble_condition sample_meta_index all_sample_metadata d s f)
        :: assemble_conditions sample_meta_index all_sample_metadata cs ds ss fs
  | _, _, _, _ => []
  end.

(** [d[k] = v] on a Python dict, as an association list in insertion
    order: an existing key keeps its place and takes the new value, a new
    key is appended. *)
Definition py_dict_set {V} (k : string) (v : V) (d : list (string * V)) : list (string * V) :=
  if bool_decide (k ∈ d.*1)
  then map (fun kv => if String.eqb kv.1 k then (k, v) else kv) d
  else d ++ [(k, v)].

(** Lines 174-202: the dicts [distances], [subject_trajectories] and
    [feature_trajectories] filled by the loop, one assignment per
    iteration. *)
Definition condition_dicts {A}
    (items : list (string * ((list (list A) * list string) * frame string * frame string)))
    : list (string * (list (list A) * list string)) * list (string * frame string) *
      list (string * frame string) :=
  fold_left (fun '(ds, ss, fs) '(c, (d, s, f)) =>
               (py_dict_set c d ds, py_dict_set c s ss, py_dict_set c f fs))
            items ([], [], []).

(** Lines 42-46 of [ctf]: [list(dists.values())[0]] and the same for the
    two trajectory dicts; [None] is the [IndexError] of an empty dict. *)
Definition ctf_outputs {A} (ord : ordination)
    (dicts : list (string * (list (list A) * list string)) * list (string * frame string) *
             list (string * frame string))
    : option (ordination * (list (list A) * list string) * frame string * frame string) :=
  match dicts with
  | ((_, d) :: _, (_, s) :: _, (_, f) :: _) => Some (ord, d, s, f)
  | _ => None
  end.

(* ------------------------------------------------------------------ *)
(** ** The standalone commands ([scripts/_standalone_transforms.py]) *)

Module Cli.

(** Argument values: click hands option values over as [str]; [PPath] is
    a [pathlib]-style object, the only kind with an [.open()] method. *)
Inductive pyval := PStr (s : string) | PPath (p : string).

Definition pyval_path (v : pyval) : string := match v with PStr s | PPath s => s end.

(** File contents: a biom table or a text file. *)
Inductive blob := BBiom (t : table) | BText (s : string).

Abbreviation fsys := (gmap string blob).

(** [os.path.join(d, f)]. *)
Definition path_join (d f : string) : string := d +:+ "/" +:+ f.

Section Transforms.

(** The external collaborators: biom parsing, newick parsing and writing,
    and the transforms of [gemelli.preprocessing]. *)
Variable parse_biom : blob -> option table.
Variable tree : Type.
Variable read_newick : string -> option tree.
Variable write_tree : tree -> string.
Variable rclr_transformation : table -> table.
Variable phylogenetic_rclr_transformation : table -> tree -> table * table * tree.

(** [biom.load_table(path)]. *)
Definition load_table (path : string) (fs : fsys) : pyres table :=
  match fs !! path with
  | Some b => match parse_biom b with
              | Some t => Ok t
              | None => Raise (ValueError "not a biom table")
              end
  | None => Raise (FileNotFoundError path)
  end.

(** [v.open()] followed by reading the handle. *)
Definition py_open (v : pyval) (fs : fsys) : pyres string :=
  match v with
  | PStr _ => Raise (AttributeError "'str' object has no attribute 'open'")
  | PPath p => match fs !! p with
               | Some (BText s) => Ok s
               | _ => Raise (FileNotFoundError p)
               end
  end.

(** [standalone_phylogenetic_rclr(in_biom, in_tree, output_dir)], up to
    the reading of [in_tree]; what follows (the transform, [os.makedirs]
    and the three writes, each of which may raise) is not modelled in
    detail: the writes are shown as one step that always succeeds. *)
Definition standalone_phylogenetic_rclr (in_biom in_tree output_dir : pyval) (fs : fsys)
    : pyres unit * fsys :=
  match load_table (pyval_path in_biom) fs with
  | Raise e => (Raise e, fs)
  | Ok table =>
      match py_open in_tree fs with
      | Raise e => (Raise e, fs)
      | Ok text =>
          match read_newick text with
          | None => (Raise (ValueError "could not parse newick"), fs)
          | Some phylogeny =>
              let '(counts_by_node, rclr_table, phylogeny') :=
                phylogenetic_rclr_transformation table phylogeny in
              let out := pyval_path output_dir in
              let fs1 := <[path_join out "labeled-phylogeny.tsv" := BText (write_tree phylogeny')]> fs in
              let fs2 := <[path_join out "phylo-rclr-table.biom" := BBiom rclr_table]> fs1 in
              let fs3 := <[path_join out "phylo-count-table.biom" := BBiom counts_by_node]> fs2 in
              (Ok tt, fs3)
          end
      end
  end.

(** [standalone_rclr(in_biom, output_dir)]; [os.makedirs] is not
    modelled, and the transform and the write are taken to succeed. *)
Definition standalone_rclr (in_biom output_dir : pyval) (fs : fsys) : pyres unit * fsys :=
  match load_table (pyval_path in_biom) fs with
  | Raise e => (Raise e, fs)
  | Ok t =>
      let table := rclr_transformation t in
      (Ok tt, <[path_join (pyval_path output_dir) "rclr-table.biom" := BBiom table]> fs)
  end.

(** A click command: its required options, the parameter names of the
    decorated function, and the function body over its keyword arguments. *)
Record command := mkcmd {
  cmd_options : list string;
  cmd_params : list string;
  cmd_body : (string -> pyval) -> fsys -> pyres unit * fsys
}.

Definition phylogenetic_rclr_cmd : command :=
  mkcmd ["--in-biom"; "--in-phylogeny"; "--output-dir"]
        ["in_biom"; "in_tree"; "output_dir"]
        (fun kw => standalone_phylogenetic_rclr (kw "in_biom") (kw "in_tree") (kw "output_dir")).

Definition rclr_cmd : command :=
  mkcmd ["--in-biom"; "--output-dir"]
        ["in_biom"; "output_dir"]
        (fun kw => standalone_rclr (kw "in_biom") (kw "output_dir")).

End Transforms.

Fixpoint dash_to_underscore (s : string) : string :=
  match s with
  | String.EmptyString => String.EmptyString
  | String.String c s' =>
      String.String (if Ascii.eqb c "-"%char then "_"%char else c) (dash_to_underscore s')
  end.

(** The parameter name click derives from an option: [--in-biom] becomes
    [in_biom]. *)
Definition click_name (opt : string) : string :=
  dash_to_underscore (String.substring 2 (String.length opt - 2) opt).

(** A Python call of [f] with keyword arguments, checked against the
    parameter list of [f]. *)
Definition py_call (params : list string) (kwargs : list (string * pyval))
    : pyres (string -> pyval) :=
  match list_find (fun kv => kv.1 ∉ params) kwargs with
  | Some (_, (n, _)) => Raise (TypeError ("got an unexpected keyword argument '" +:+ n +:+ "'"))
  | None =>
      match list_find (fun p => p ∉ kwargs.*1) params with
      | Some (_, p) => Raise (TypeError ("missing 1 required positional argument: '" +:+ p +:+ "'"))
      | None => Ok (fun p => default (PStr "") (snd ∘ snd <$> list_find (fun kv => kv.1 = p) kwargs))
      end
  end.

(** Running a command from the command line with [argv] given as
    (option, value) pairs. *)
Definition cli_invoke (cmd : command) (argv : list (string * string)) (fs : fsys)
    : pyres unit * fsys :=
  match list_find (fun o => o ∉ cmd_options cmd) argv.*1 with
  | Some (_, o) => (Raise (UsageError ("No such option: " +:+ o)), fs)
  | None =>
      match list_find (fun o => o ∉ argv.*1) (cmd_options cmd) with
      | Some (_, o) => (Raise (UsageError ("Missing option " +:+ o)), fs)
      | None =>
          match py_call (cmd_params cmd) (map (fun ov => (click_name ov.1, PStr ov.2)) argv) with
          | Raise e => (Raise e, fs)
          | Ok kw => cmd_body cmd kw fs
          end
      end
  end.

End Cli.

(* ------------------------------------------------------------------ *)
(** ** Views used to state properties *)

(** Every column holds one cell per index entry. *)
Definition frame_wf {K} (df : frame K) : Prop :=
  Forall (fun c => length (cells c) = length (index df)) (columns df).

(** The rows of a frame, with their labels, in order. *)
Definition rows (df : frame string) : list (string * list cell) :=
  map (fun i => (nth i (index df) "", row_at df i)) (seq 0 (length (index df))).

(** The cells of the first column of that name ([df[name]]). *)
Definition get_column {K} (name : string) (df : frame K) : option (list cell) :=
  cells <$> List.find (fun c => String.eqb (cname c) name) (columns df).

(** The axis names of a loading table: its columns whose name contains
    "PC". *)
Definition pc_axes {K} (df : frame K) : list string :=
  List.filter (py_contains "PC") (col_names df).

(** ["PC%i" % (i + 1) for i in range(n)]. *)
Definition pc_names (n : nat) : list string :=
  map (fun i => "PC" +:+ pretty (Z.of_nat i)) (seq 1 n).

(** Whether [x] is not a missing value. *)
Definition not_nan (x : cell) : bool := bool_decide (x <> CNaN).

(** The counts of a biom table as (feature id, sample id, count)
    triples, feature by feature, in table order. *)
Definition entries (t : table) : list (string * string * Z) :=
  flat_map (fun '(f, row) => map (fun '(s, c) => (f, s, c)) (zip (samp_ids t) row))
           (zip (obs_ids t) (data t)).

(** A table [t'] obtained from [t] by filtering: its ids are the ids of
    [t] in their order, with some left out, and its counts are those of [t]
    at the pairs of ids it keeps. *)
Definition filtered_from (t t' : table) : Prop :=
  samp_ids t' `sublist_of` samp_ids t /\
  obs_ids t' `sublist_of` obs_ids t /\
  entries t' = List.filter (fun e => mem e.1.1 (obs_ids t') && mem e.1.2 (samp_ids t')) (entries t).

(** [d[k]] on a dict held as an association list. *)
Definition assoc {V} (k : string) (d : list (string * V)) : option V :=
  snd <$> List.find (fun kv => String.eqb kv.1 k) d.

(** A frame without its first row. *)
Definition frame_tail {K} (df : frame K) : frame K :=
  mkframe (tail (index df)) (iname df)
    (map (fun c => mkcol (cname c) (cdtype c) (tail (cells c))) (columns df)).

(** The frame behind either form of sample metadata. *)
Definition md_frame (md : md_input) : frame string :=
  match md with MDataFrame df => df | MQiime m => m end.

(* ------------------------------------------------------------------ *)
(** ** Example inputs *)

(** Sample metadata with a subject and a state column, a bool column, a
    column holding only the string "True", one holding both strings and a
    numeric one. *)
Definition example_metadata : frame string :=
  mkframe ["x"; "y"] None
    [mkcol "subject" DObject [CStr "a"; CStr "b"];
     mkcol "time" DInt [CNum 1; CNum 2];
     mkcol "flag" DBool [CBool true; CBool false];
     mkcol "t_only" DObject [CStr "True"; CNaN];
     mkcol "both" DObject [CStr "True"; CStr "False"];
     mkcol "num" DFloat [CNum 3; CNaN]].

(** A two-component factorization as the fit labels it: loadings on PC1
    and PC2 (the feature table also carries a taxonomy column), and
    per-axis eigenvalues and proportions explained. *)
Definition example_tf2 : tf_result :=
  mktf (mkframe ["s1"; "s2"] None
          [mkcol "PC1" DFloat [CNum 1; CNum 2]; mkcol "PC2" DFloat [CNum 3; CNum 4]])
       (mkframe ["f1"] None
          [mkcol "PC1" DFloat [CNum 5]; mkcol "PC2" DFloat [CNum 6];
           mkcol "Taxon" DObject [CStr "k__Bacteria"]])
       (mkframe ["PC1"; "PC2"] None [mkcol "proportion_explained" DFloat [CNum 7; CNum 3]])
       (mkframe ["PC1"; "PC2"] None [mkcol "eigvals" DFloat [CNum 9; CNum 4]]).

(** A factorization whose subject table holds the same row twice. *)
Definition example_tf_duplicate_row : tf_result :=
  mktf (mkframe ["s1"; "s1"; "s2"] None [mkcol "PC1" DFloat [CNum 1; CNum 1; CNaN]])
       (mkframe ["f1"] None [mkcol "PC1" DFloat [CNum 5]])
       (mkframe ["PC1"] None [mkcol "proportion_explained" DFloat [CNum 1]])
       (mkframe ["PC1"] None [mkcol "eigvals" DFloat [CNum 2]]).

(** The subject loadings of one condition (subject "s3" has no value on
    PC2) and auxiliary sample metadata, listed out of id order. *)
Definition example_straj : frame string :=
  mkframe ["s1"; "s2"; "s3"] None
    [mkcol "PC1" DFloat [CNum 1; CNum 2; CNum 3]; mkcol "PC2" DFloat [CNum 4; CNum 5; CNaN]].

Definition example_aux : frame string :=
  mkframe ["s2"; "s4"; "s1"; "s3"] None
    [mkcol "site" DObject [CStr "gut"; CStr "skin"; CStr "oral"; CStr "gut"]].

(** Feature loadings labelled by integer and string ids. *)
Definition example_ftraj : frame pykey :=
  mkframe [KInt 7; KStr "f2"] None [mkcol "PC1" DFloat [CNum 1; CNum 2]].

(* ================================================================== *)
(** * Properties *)

(* ------------------------------------------------------------------ *)
(** ** Lists, masks and the Python set helpers *)

Lemma mem_true (x : string) (l : list string) : mem x l = true <-> x ∈ l.
Proof. unfold mem. apply bool_decide_eq_true. Qed.

Lemma mem_false (x : string) (l : list string) : mem x l = false <-> x ∉ l.
Proof. unfold mem. apply bool_decide_eq_false. Qed.

Lemma length_remove_dups_le (l : list string) : (length (remove_dups l) <= length l)%nat.
Proof. induction l as [|x l IH]; simpl; [lia|]. case_decide; simpl; lia. Qed.

Lemma has_dup_false_iff (l : list string) : has_dup l = false <-> NoDup l.
Proof.
  unfold has_dup. rewrite negb_false_iff, Nat.eqb_eq.
  induction l as [|x l IH]; simpl.
  - split; [constructor | done].
  - case_decide as Hx.
    + split.
      * pose proof (length_remove_dups_le l). lia.
      * intros Hnd. apply NoDup_cons in Hnd. tauto.
    + rewrite NoDup_cons. simpl. split.
      * intros [= H]. tauto.
      * intros [_ H]. f_equal. tauto.
Qed.

Lemma elem_of_py_set_inter (a b : list string) x : x ∈ py_set_inter a b <-> x ∈ a /\ x ∈ b.
Proof.
  unfold py_set_inter. rewrite list_elem_of_filter, elem_of_remove_dups. tauto.
Qed.

Lemma py_set_inter_nonempty (a b : list string) x :
  x ∈ a -> x ∈ b -> Nat.eqb (length (py_set_inter a b)) 0 = false.
Proof.
  intros Ha Hb. apply Nat.eqb_neq. intros Hl. apply length_zero_iff_nil in Hl.
  assert (x ∈ py_set_inter a b) as Hx by (apply elem_of_py_set_inter; done).
  rewrite Hl in Hx. set_solver.
Qed.

Lemma py_set_inter_empty (a b : list string) :
  (forall x, x ∈ a -> x ∉ b) -> Nat.eqb (length (py_set_inter a b)) 0 = true.
Proof.
  intros H. apply Nat.eqb_eq. destruct (py_set_inter a b) as [|x l] eqn:E; [done|].
  assert (x ∈ py_set_inter a b) as Hx by (rewrite E; set_solver).
  apply elem_of_py_set_inter in Hx. destruct Hx as [Ha Hb]. by destruct (H x Ha).
Qed.

Lemma mask_list_all {A B} (f : A -> bool) (l : list A) (r : list B) :
  length l = length r -> (forall x, x ∈ l -> f x = true) -> mask_list (map f l) r = r.
Proof.
  revert r. induction l as [|x l IH]; intros [|y r] Hlen Hf; simpl in *; try done.
  rewrite Hf by set_solver. f_equal. apply IH; [lia | set_solver].
Qed.

Lemma elem_of_mask_list {A} (m : list bool) (l : list A) x : x ∈ mask_list m l -> x ∈ l.
Proof.
  revert l. induction m as [|b m IH]; intros [|y l]; simpl; try set_solver.
  intros H. destruct b.
  - apply elem_of_cons in H as [->|H]; [set_solver|]. specialize (IH l H). set_solver.
  - specialize (IH l H). set_solver.
Qed.

Lemma elem_of_mask_map {A} (f : A -> bool) (l : list A) x :
  x ∈ mask_list (map f l) l -> x ∈ l /\ f x = true.
Proof.
  induction l as [|y l IH]; simpl; [set_solver|].
  destruct (f y) eqn:Hy; rewrite ?elem_of_cons.
  - intros [->|H]; [split; [set_solver | done]|]. specialize (IH H). set_solver.
  - intros H. specialize (IH H). set_solver.
Qed.

(* ------------------------------------------------------------------ *)
(** ** biom filtering *)

Lemma length_sum_sample (t : table) : length (Biom.sum ASample t) = length (samp_ids t).
Proof. simpl. by rewrite length_map, length_seq. Qed.

Lemma length_sum_obs (t : table) : length (Biom.sum AObservation t) = length (data t).
Proof. simpl. by rewrite length_map. Qed.

(** Filtering on ids that all survive leaves a well-formed table as it is. *)
Lemma filter_keep_all (keep : list string) (ax : axis) (t : table) :
  well_formed t -> (forall x, x ∈ ids ax t -> x ∈ keep) -> Biom.filter keep ax t = t.
Proof.
  intros [Hrows Hcols] Hkeep. destruct t as [o s d]; simpl in *.
  assert (forall l : list string, (forall x, x ∈ l -> x ∈ keep) ->
            forall x, x ∈ l -> mem x keep = true) as Hm
    by (intros l Hl x Hx; apply mem_true; auto).
  destruct ax; simpl in *.
  - f_equal.
    + apply mask_list_all; [done | by apply Hm].
    + rewrite <- (map_id d) at 2. apply map_ext_in. intros row Hrow.
      apply mask_list_all; [| by apply Hm].
      rewrite Forall_forall in Hcols. symmetry. apply Hcols. by apply list_elem_of_In.
  - f_equal; apply mask_list_all; (done || by apply Hm).
Qed.

Lemma ids_meeting_all (l : list string) (sums : list Z) (m : Z) :
  length sums = length l -> Forall (fun s => m <= s) sums -> ids_meeting l sums m = l.
Proof.
  intros Hlen Hall. unfold ids_meeting. apply mask_list_all; [done|].
  intros x Hx. rewrite Forall_forall in Hall. by apply Z.leb_le, Hall.
Qed.

Lemma filter_samp_ids_sub (keep : list string) (ax : axis) (t : table) x :
  x ∈ samp_ids (Biom.filter keep ax t) -> x ∈ samp_ids t /\ (ax = ASample -> x ∈ keep).
Proof.
  destruct ax; simpl.
  - intros H. apply elem_of_mask_map in H. rewrite mem_true in H. naive_solver.
  - naive_solver.
Qed.

Lemma filter_obs_ids_sub (keep : list string) (ax : axis) (t : table) x :
  x ∈ obs_ids (Biom.filter keep ax t) -> x ∈ obs_ids t /\ (ax = AObservation -> x ∈ keep).
Proof.
  destruct ax; simpl.
  - naive_solver.
  - intros H. apply elem_of_mask_map in H. rewrite mem_true in H. naive_solver.
Qed.

Lemma filter_min_counts_ids_sub (msc mfc : Z) (t : table) :
  (forall x, x ∈ samp_ids (filter_min_counts msc mfc t) -> x ∈ samp_ids t) /\
  (forall x, x ∈ obs_ids (filter_min_counts msc mfc t) -> x ∈ obs_ids t).
Proof.
  unfold filter_min_counts. cbn [fold_left]. split; intros x Hx.
  - apply filter_samp_ids_sub in Hx as [Hx _]. by apply filter_samp_ids_sub in Hx as [Hx _].
  - apply filter_obs_ids_sub in Hx as [Hx _]. by apply filter_obs_ids_sub in Hx as [Hx _].
Qed.

Lemma filter_min_counts_all (msc mfc : Z) (t : table) :
  well_formed t ->
  Forall (fun s => msc <= s) (Biom.sum ASample t) ->
  Forall (fun s => mfc <= s) (Biom.sum AObservation t) ->
  filter_min_counts msc mfc t = t.
Proof.
  intros Hwf Hs Ho. unfold filter_min_counts. cbn [fold_left ids].
  rewrite (ids_meeting_all (samp_ids t)) by (done || apply length_sum_sample).
  rewrite (filter_keep_all (samp_ids t) ASample t Hwf) by (intros; done).
  rewrite (ids_meeting_all (obs_ids t)) by (done || (rewrite length_sum_obs; apply Hwf)).
  apply filter_keep_all; [done | intros; done].
Qed.

Lemma validate_ids_none (t : table) :
  NoDup (samp_ids t) -> NoDup (obs_ids t) -> validate_ids t = None.
Proof.
  intros Hs Ho. unfold validate_ids.
  apply has_dup_false_iff in Hs, Ho. by rewrite Hs, Ho.
Qed.

Lemma validate_ids_none_inv (t : table) :
  validate_ids t = None -> NoDup (samp_ids t) /\ NoDup (obs_ids t).
Proof.
  unfold validate_ids. rewrite <- !has_dup_false_iff.
  destruct (has_dup (samp_ids t)), (has_dup (obs_ids t)); naive_solver.
Qed.

(** On ids that are already aligned, the id filtering is the identity. *)
Lemma align_ids_aligned (t : table) (meta_ids : list string) (fmeta : option (list string)) :
  well_formed t ->
  (forall s, s ∈ samp_ids t -> s ∈ meta_ids) -> samp_ids t <> [] ->
  (forall fm, fmeta = Some fm -> (forall f, f ∈ obs_ids t -> f ∈ fm) /\ obs_ids t <> []) ->
  align_ids t meta_ids fmeta = Ok t.
Proof.
  intros Hwf Hs Hsne Hf. unfold align_ids.
  assert (exists s0, s0 ∈ samp_ids t) as [s0 Hs0]
    by (destruct (samp_ids t); [done | eexists; left]).
  rewrite (py_set_inter_nonempty _ meta_ids s0 Hs0 (Hs s0 Hs0)).
  assert (Biom.filter (py_set_inter (samp_ids t) meta_ids) ASample t = t) as Hsf.
  { apply filter_keep_all; [done|]. intros x Hx. apply elem_of_py_set_inter.
    simpl in Hx. split; auto. }
  destruct fmeta as [fm|].
  - destruct (Hf fm eq_refl) as [Hin Hne].
    assert (exists f0, f0 ∈ obs_ids t) as [f0 Hf0]
      by (destruct (obs_ids t); [done | eexists; left]).
    rewrite (py_set_inter_nonempty _ fm f0 Hf0 (Hin f0 Hf0)).
    rewrite (filter_keep_all _ AObservation t Hwf); [by rewrite Hsf|].
    intros x Hx. apply elem_of_py_set_inter. simpl in Hx. split; auto.
  - by rewrite Hsf.
Qed.

(** The ids left by [align_ids] are shared ids. *)
Lemma align_ids_ids (t : table) (meta_ids : list string) (fmeta : option (list string)) (t2 : table) :
  align_ids t meta_ids fmeta = Ok t2 ->
  (forall s, s ∈ samp_ids t2 -> s ∈ samp_ids t /\ s ∈ meta_ids) /\
  (forall f, f ∈ obs_ids t2 -> f ∈ obs_ids t /\ forall fm, fmeta = Some fm -> f ∈ fm).
Proof.
  unfold align_ids. intros Ha.
  destruct fmeta as [fm|].
  - destruct (Nat.eqb (length (py_set_inter (obs_ids t) fm)) 0); [discriminate|].
    destruct (Nat.eqb (length (py_set_inter (samp_ids t) meta_ids)) 0); [discriminate|].
    assert (Biom.filter (py_set_inter (samp_ids t) meta_ids) ASample
              (Biom.filter (py_set_inter (obs_ids t) fm) AObservation t) = t2) as <- by congruence.
    split.
    + intros s Hs.
      apply filter_samp_ids_sub in Hs as [Hs Hk]. specialize (Hk eq_refl).
      apply filter_samp_ids_sub in Hs as [Hs _].
      apply elem_of_py_set_inter in Hk. tauto.
    + intros f Hf.
      apply filter_obs_ids_sub in Hf as [Hf _].
      apply filter_obs_ids_sub in Hf as [_ Hk]. specialize (Hk eq_refl).
      apply elem_of_py_set_inter in Hk. split; [tauto|]. intros fm' [= <-]. tauto.
  - destruct (Nat.eqb (length (py_set_inter (samp_ids t) meta_ids)) 0); [discriminate|].
    assert (Biom.filter (py_set_inter (samp_ids t) meta_ids) ASample t = t2) as <- by congruence.
    split.
    + intros s Hs.
      apply filter_samp_ids_sub in Hs as [_ Hk]. specialize (Hk eq_refl).
      apply elem_of_py_set_inter in Hk. tauto.
    + intros f Hf.
      apply filter_obs_ids_sub in Hf as [Hf _]. split; [done | discriminate].
Qed.

(** ** C3 *)

(** C3: a table with a duplicated sample id or a duplicated feature id is
    rejected with a [ValueError] by the duplicate-id validation, before any
    alignment or filtering (the caller's table is returned untouched); a
    table whose sample ids and feature ids are all distinct passes that
    validation. *)
Theorem ctf_align_duplicate_ids (t : table) (meta_ids : list string)
    (fmeta : option (list string)) (msc mfc : Z) :
  ((~ NoDup (samp_ids t) \/ ~ NoDup (obs_ids t)) ->
     exists msg, validate_ids t = Some (ValueError msg) /\
       ctf_align t meta_ids fmeta msc mfc = (Raise (ValueError msg), t) /\
       (msg = msg_dup_samples \/ msg = msg_dup_features)) /\
  (NoDup (samp_ids t) -> NoDup (obs_ids t) -> validate_ids t = None).
Proof.
  split; [|apply validate_ids_none].
  intros Hdup. unfold ctf_align.
  destruct (validate_ids t) as [e|] eqn:Hv.
  - unfold validate_ids in Hv.
    destruct (has_dup (samp_ids t)); [|destruct (has_dup (obs_ids t))];
      try discriminate; injection Hv as <-; eexists; (split; [done | split; [done | tauto]]).
  - apply validate_ids_none_inv in Hv. tauto.
Qed.

(** ** C2 *)

(** C2 (as stated, refuted): with a duplicated sample id and a sample-id
    intersection that is empty, the error raised is the duplicate-id one,
    whose message does not name the empty id set. *)
Lemma ctf_align_empty_intersection_dup_first :
  (forall s, s ∈ samp_ids (mktable ["f1"] ["s1"; "s1"] [[1; 1]]) -> s ∉ ["m"]) /\
  ctf_align (mktable ["f1"] ["s1"; "s1"] [[1; 1]]) ["m"] None 0 0 =
    (Raise (ValueError msg_dup_samples), mktable ["f1"] ["s1"; "s1"] [[1; 1]]) /\
  msg_dup_samples <> msg_no_features_smeta.
Proof.
  split; [|split].
  - simpl. set_solver.
  - reflexivity.
  - unfold msg_dup_samples, msg_no_features_smeta. discriminate.
Qed.

(** ** C7 *)

(** C7: on a well-formed, duplicate-free table whose sample ids are
    exactly the metadata ids (and feature ids exactly the feature-metadata
    ids, when given), non-empty, and whose sample and feature totals all
    meet the thresholds, the alignment and filtering steps succeed, and a
    second run on their output yields the same filtered table. *)
Theorem ctf_align_idempotent (t : table) (meta_ids : list string)
    (fmeta : option (list string)) (msc mfc : Z) :
  well_formed t -> NoDup (samp_ids t) -> NoDup (obs_ids t) ->
  (forall s, s ∈ samp_ids t <-> s ∈ meta_ids) -> samp_ids t <> [] ->
  (forall fm, fmeta = Some fm -> (forall f, f ∈ obs_ids t <-> f ∈ fm) /\ obs_ids t <> []) ->
  Forall (fun s => msc <= s) (Biom.sum ASample t) ->
  Forall (fun s => mfc <= s) (Biom.sum AObservation t) ->
  exists t1, ctf_align t meta_ids fmeta msc mfc = (Ok t1, t1) /\
             ctf_align t1 meta_ids fmeta msc mfc = (Ok t1, t1).
Proof.
  intros Hwf Hs Ho Hmeta Hne Hf Hmsc Hmfc.
  assert (ctf_align t meta_ids fmeta msc mfc = (Ok t, t)) as Hrun.
  { unfold ctf_align. rewrite validate_ids_none by done.
    rewrite align_ids_aligned; [| done | intros s; apply Hmeta | done |].
    - by rewrite filter_min_counts_all.
    - intros fm Hfm. destruct (Hf fm Hfm) as [Hiff Hon]. split; [intros f; apply Hiff | done]. }
  exists t. by split.
Qed.

Lemma ctf_align_idempotent_witness :
  exists t1,
    ctf_align (mktable ["f1"; "f2"] ["s1"; "s2"] [[1; 2]; [3; 0]]) ["s1"; "s2"]
              (Some ["f2"; "f1"]) 2 2 = (Ok t1, t1) /\
    ctf_align t1 ["s1"; "s2"] (Some ["f2"; "f1"]) 2 2 = (Ok t1, t1).
Proof.
  apply ctf_align_idempotent.
  - split; [reflexivity|]. repeat constructor.
  - apply has_dup_false_iff. reflexivity.
  - apply has_dup_false_iff. reflexivity.
  - intros s. simpl. set_solver.
  - discriminate.
  - intros fm [= <-]. split; [intros f; simpl; set_solver | discriminate].
  - vm_compute. repeat constructor; discriminate.
  - vm_compute. repeat constructor; discriminate.
Defined.

(** ** C9 *)

(** C9: every filter of the alignment stage runs [inplace=True] on the
    caller's biom table.  When the stage succeeds, the caller's table is
    afterwards the very table handed on to the tensor builder: the table
    restricted to the shared sample ids (and shared feature ids when feature
    metadata is given), then filtered on sample totals and, after that, on
    feature totals.  When validation raises first, the caller's table is
    left as it was. *)
Theorem ctf_align_mutates_caller_table (t : table) (meta_ids : list string)
    (fmeta : option (list string)) (msc mfc : Z) (r : pyres table) (t' : table) :
  ctf_align t meta_ids fmeta msc mfc = (r, t') ->
  (forall e, r = Raise e -> t' = t) /\
  (forall t1, r = Ok t1 ->
     t1 = t' /\
     (exists t2, align_ids t meta_ids fmeta = Ok t2 /\ t' = filter_min_counts msc mfc t2) /\
     (forall s, s ∈ samp_ids t' -> s ∈ samp_ids t /\ s ∈ meta_ids) /\
     (forall f, f ∈ obs_ids t' -> f ∈ obs_ids t /\ forall fm, fmeta = Some fm -> f ∈ fm)).
Proof.
  unfold ctf_align. intros Hrun.
  destruct (validate_ids t) as [e|]; [injection Hrun as <- <-; split; [done | discriminate]|].
  destruct (align_ids t meta_ids fmeta) as [t2|e] eqn:Ha;
    [|injection Hrun as <- <-; split; [done | discriminate]].
  injection Hrun as <- <-. split; [discriminate|]. intros t1 [= <-].
  split; [done|]. split; [eauto|].
  destruct (filter_min_counts_ids_sub msc mfc t2) as [Hsub_s Hsub_o].
  destruct (align_ids_ids t meta_ids fmeta t2 Ha) as [Hs Ho].
  split; intros x Hx; [apply Hs, Hsub_s, Hx | apply Ho, Hsub_o, Hx].
Qed.

(** A run that drops the sample [s1] (total 1 below the threshold 2):
    the caller's table afterwards differs from the one passed in. *)
Lemma ctf_align_mutates_caller_table_witness :
  ctf_align (mktable ["f1"; "f2"] ["s1"; "s2"] [[1; 1]; [0; 5]]) ["s1"; "s2"] None 2 2 =
    (Ok (mktable ["f2"] ["s2"] [[5]]), mktable ["f2"] ["s2"] [[5]]) /\
  mktable ["f2"] ["s2"] [[5]] <> mktable ["f1"; "f2"] ["s1"; "s2"] [[1; 1]; [0; 5]] /\
  (forall e, @Ok table (mktable ["f2"] ["s2"] [[5]]) = Raise e ->
     mktable ["f2"] ["s2"] [[5]] = mktable ["f1"; "f2"] ["s1"; "s2"] [[1; 1]; [0; 5]]) /\
  (forall t1, @Ok table (mktable ["f2"] ["s2"] [[5]]) = Ok t1 ->
     t1 = mktable ["f2"] ["s2"] [[5]] /\
     (exists t2, align_ids (mktable ["f1"; "f2"] ["s1"; "s2"] [[1; 1]; [0; 5]]) ["s1"; "s2"] None = Ok t2 /\
                 mktable ["f2"] ["s2"] [[5]] = filter_min_counts 2 2 t2) /\
     (forall s, s ∈ samp_ids (mktable ["f2"] ["s2"] [[5]]) ->
        s ∈ samp_ids (mktable ["f1"; "f2"] ["s1"; "s2"] [[1; 1]; [0; 5]]) /\ s ∈ ["s1"; "s2"]) /\
     (forall f, f ∈ obs_ids (mktable ["f2"] ["s2"] [[5]]) ->
        f ∈ obs_ids (mktable ["f1"; "f2"] ["s1"; "s2"] [[1; 1]; [0; 5]]) /\
        forall fm : list string, None = Some fm -> f ∈ fm)).
Proof.
  assert (ctf_align (mktable ["f1"; "f2"] ["s1"; "s2"] [[1; 1]; [0; 5]]) ["s1"; "s2"] None 2 2 =
    (Ok (mktable ["f2"] ["s2"] [[5]]), mktable ["f2"] ["s2"] [[5]])) as H by reflexivity.
  split; [exact H|]. split; [discriminate|].
  exact (ctf_align_mutates_caller_table _ _ _ _ _ _ _ H).
Defined.

(* ------------------------------------------------------------------ *)
(** ** Sample metadata *)

Lemma filter_filter_andb {A} (p q : A -> bool) (l : list A) :
  List.filter q (List.filter p l) = List.filter (fun x => p x && q x) l.
Proof.
  induction l as [|x l IH]; simpl; [done|].
  destruct (p x); simpl; [destruct (q x)|]; simpl; by rewrite ?IH.
Qed.

(** ** C10 *)

(** C10: for a raw [DataFrame], the auxiliary columns kept are the
    non-subject, non-state columns that are not of [bool] dtype and that
    contain both of the strings "True" and "False" or neither; for a
    [qiime2.Metadata] object every non-subject, non-state column is kept. *)
Theorem ctf_metadata_aux_columns (q2_roundtrip : frame string -> pyres (frame string))
    (md : md_input) (individual_id_column : string) (state_columns : list string)
    (sample_metadata all_sample_metadata : frame string) :
  ctf_metadata q2_roundtrip md individual_id_column state_columns =
    Ok (sample_metadata, all_sample_metadata) ->
  match md with
  | MDataFrame df =>
      columns all_sample_metadata =
        List.filter (fun c => negb (mem (cname c) (state_columns ++ [individual_id_column])) &&
                              negb (is_bool_dtype c) &&
                              ((eq_any "True" c && eq_any "False" c) ||
                               (negb (eq_any "True" c) && negb (eq_any "False" c))))
                    (columns df)
  | MQiime m =>
      columns all_sample_metadata =
        List.filter (fun c => negb (mem (cname c) (state_columns ++ [individual_id_column])))
                    (columns m)
  end.
Proof.
  unfold ctf_metadata, mbind, pyres_bind, mret, pyres_ret. destruct md as [df|m].
  - destruct (drop_cols (state_columns ++ [individual_id_column]) df) as [all|e] eqn:Hd;
      [|discriminate].
    destruct (select_cols (state_columns ++ [individual_id_column]) df) as [sm|e]; [|discriminate].
    destruct (q2_roundtrip sm) as [sm'|e]; [|discriminate].
    intros [= _ <-]. simpl.
    unfold drop_cols in Hd.
    destruct (list_find _ _) as [[? ?]|]; [discriminate|].
    injection Hd as <-. simpl.
    rewrite !filter_filter_andb. apply List.filter_ext. intros c.
    destruct (mem _ _), (is_bool_dtype c), (eq_any "True" c), (eq_any "False" c); reflexivity.
  - destruct (drop_cols (state_columns ++ [individual_id_column]) m) as [all|e] eqn:Hd;
      [|discriminate].
    destruct (select_cols (state_columns ++ [individual_id_column]) m) as [sm|e]; [|discriminate].
    intros [= _ <-].
    unfold drop_cols in Hd.
    destruct (list_find _ _) as [[? ?]|]; [discriminate|].
    by injection Hd as <-.
Qed.

Lemma ctf_metadata_aux_columns_witness :
  exists sm aux,
    ctf_metadata (fun f => Ok f) (MDataFrame example_metadata) "subject" ["time"] = Ok (sm, aux) /\
    columns aux =
      List.filter (fun c => negb (mem (cname c) (["time"] ++ ["subject"])) &&
                            negb (is_bool_dtype c) &&
                            ((eq_any "True" c && eq_any "False" c) ||
                             (negb (eq_any "True" c) && negb (eq_any "False" c))))
                  (columns example_metadata).
Proof.
  eexists _, _. split; [reflexivity|].
  exact (ctf_metadata_aux_columns (fun f => Ok f) (MDataFrame example_metadata) "subject" ["time"]
           _ _ eq_refl).
Defined.

(** On the example, "flag" (bool dtype), and "t_only" (only "True") are
    dropped, "both" and "num" are kept. *)
Example ctf_metadata_example :
  (fun r => match r with Ok (_, aux) => col_names aux | Raise _ => [] end)
    (ctf_metadata (fun f => Ok f) (MDataFrame example_metadata) "subject" ["time"]) = ["both"; "num"].
Proof. reflexivity. Qed.

(* ------------------------------------------------------------------ *)
(** ** The two-component special case *)

Lemma find_app_skip {A} (p : A -> bool) (l1 l2 : list A) :
  (forall x, x ∈ l1 -> p x = false) -> List.find p (l1 ++ l2) = List.find p l2.
Proof.
  induction l1 as [|x l1 IH]; intros H; simpl; [done|].
  rewrite H by set_solver. apply IH. set_solver.
Qed.

Lemma pc3_not_column {K} (df : frame K) :
  pc_axes df = pc_names 2 -> "PC3" ∉ col_names df.
Proof.
  intros Hax Hin.
  assert ("PC3" ∈ pc_axes df) as H.
  { unfold pc_axes. apply list_elem_of_In, filter_In. split; [by apply list_elem_of_In | reflexivity]. }
  rewrite Hax in H. vm_compute in H. set_solver.
Qed.

(** Adding [PC3] to a loading table whose axes are PC1 and PC2. *)
Lemma set_column_pc3 {K} (df : frame K) (vals : list cell) :
  pc_axes df = pc_names 2 ->
  pc_axes (set_column "PC3" vals df) = pc_names 3 /\
  get_column "PC3" (set_column "PC3" vals df) = Some vals /\
  index (set_column "PC3" vals df) = index df.
Proof.
  intros Hax. pose proof (pc3_not_column df Hax) as Hn.
  unfold set_column. rewrite bool_decide_eq_false_2 by done.
  split; [|split; [|done]].
  - unfold pc_axes, col_names in *. simpl. rewrite map_app, List.filter_app, Hax. reflexivity.
  - unfold get_column. simpl. rewrite find_app_skip; [done|].
    intros c Hc. apply String.eqb_neq. intros Heq. apply Hn. unfold col_names.
    rewrite <- Heq. by apply list_elem_of_fmap_2.
Qed.

Lemma nth_snoc {A} (l : list A) (x d : A) : nth (length l) (l ++ [x]) d = x.
Proof. induction l; simpl; auto. Qed.

(** Appending the row [PC3] to an axis-indexed frame on PC1 and PC2. *)
Lemma loc_set_row_pc3 (df : frame string) (v : cell) :
  index df = pc_names 2 -> frame_wf df ->
  index (loc_set_row "PC3" v df) = pc_names 3 /\
  row_of (loc_set_row "PC3" v df) "PC3" = Some (repeat v (length (columns df))).
Proof.
  intros Hidx Hwf. unfold loc_set_row. rewrite Hidx.
  change (get_loc "PC3" (pc_names 2)) with (@None nat). simpl.
  split; [reflexivity|].
  unfold row_of. simpl. change (get_loc "PC3" (pc_names 2 ++ ["PC3"])) with (Some 2%nat).
  simpl. unfold row_at. simpl. rewrite map_map. f_equal.
  unfold frame_wf in Hwf. rewrite Hidx in Hwf.
  clear Hidx. induction (columns df) as [|c cs IH]; [done|].
  inversion Hwf as [|? ? Hc Hcs]; subst. simpl. f_equal; [|by apply IH].
  simpl in Hc. rewrite <- Hc. apply nth_snoc.
Qed.

(** ** C1 *)

(** C1: with [n_components = 2], on a factorization labelled with the two
    axes PC1 and PC2 (as the fit labels [n_components] axes), a zero [PC3]
    axis is appended to the subject and feature loadings (a column of zeros,
    one per row) and to the proportions explained and eigenvalues (a row of
    zeros), which then all have exactly the axes PC1, PC2, PC3; for any
    other [n_components] nothing is changed. *)
Theorem add_pc3_axes (n_components : Z) (tf : tf_result) :
  (n_components = 2 ->
   pc_axes (subjects tf) = pc_names 2 -> pc_axes (features tf) = pc_names 2 ->
   index (proportion_explained tf) = pc_names 2 -> index (eigvals tf) = pc_names 2 ->
   frame_wf (proportion_explained tf) -> frame_wf (eigvals tf) ->
   pc_axes (subjects (add_pc3 n_components tf)) = pc_names 3 /\
   pc_axes (features (add_pc3 n_components tf)) = pc_names 3 /\
   index (proportion_explained (add_pc3 n_components tf)) = pc_names 3 /\
   index (eigvals (add_pc3 n_components tf)) = pc_names 3 /\
   get_column "PC3" (subjects (add_pc3 n_components tf)) =
     Some (repeat (CNum 0) (length (index (subjects tf)))) /\
   get_column "PC3" (features (add_pc3 n_components tf)) =
     Some (repeat (CNum 0) (length (index (features tf)))) /\
   row_of (proportion_explained (add_pc3 n_components tf)) "PC3" =
     Some (repeat (CNum 0) (length (columns (proportion_explained tf)))) /\
   row_of (eigvals (add_pc3 n_components tf)) "PC3" =
     Some (repeat (CNum 0) (length (columns (eigvals tf))))) /\
  (n_components <> 2 -> add_pc3 n_components tf = tf).
Proof.
  split.
  - intros -> Hs Hf Hp He Hpwf Hewf. unfold add_pc3. simpl.
    destruct (set_column_pc3 (subjects tf) (repeat (CNum 0) (length (index (subjects tf)))) Hs)
      as (Hs1 & Hs2 & _).
    destruct (set_column_pc3 (features tf) (repeat (CNum 0) (length (index (features tf)))) Hf)
      as (Hf1 & Hf2 & _).
    destruct (loc_set_row_pc3 (proportion_explained tf) (CNum 0) Hp Hpwf) as [Hp1 Hp2].
    destruct (loc_set_row_pc3 (eigvals tf) (CNum 0) He Hewf) as [He1 He2].
    tauto.
  - intros Hn. unfold add_pc3. by rewrite (proj2 (Z.eqb_neq _ _) Hn).
Qed.

Lemma add_pc3_axes_witness :
  pc_axes (subjects (add_pc3 2 example_tf2)) = pc_names 3 /\
  pc_axes (features (add_pc3 2 example_tf2)) = pc_names 3 /\
  index (proportion_explained (add_pc3 2 example_tf2)) = pc_names 3 /\
  index (eigvals (add_pc3 2 example_tf2)) = pc_names 3 /\
  get_column "PC3" (subjects (add_pc3 2 example_tf2)) =
    Some (repeat (CNum 0) (length (index (subjects example_tf2)))) /\
  get_column "PC3" (features (add_pc3 2 example_tf2)) =
    Some (repeat (CNum 0) (length (index (features example_tf2)))) /\
  row_of (proportion_explained (add_pc3 2 example_tf2)) "PC3" =
    Some (repeat (CNum 0) (length (columns (proportion_explained example_tf2)))) /\
  row_of (eigvals (add_pc3 2 example_tf2)) "PC3" =
    Some (repeat (CNum 0) (length (columns (eigvals example_tf2)))).
Proof.
  apply (proj1 (add_pc3_axes 2 example_tf2)); try reflexivity;
    unfold frame_wf; simpl; repeat constructor.
Defined.

(** The example's loading tables have three PC columns afterwards, the
    taxonomy column untouched. *)
Example add_pc3_example :
  col_names (features (add_pc3 2 example_tf2)) = ["PC1"; "PC2"; "Taxon"; "PC3"].
Proof. reflexivity. Qed.

(* ------------------------------------------------------------------ *)
(** ** The standalone commands *)

Section Commands.

Import Cli.

Variable parse_biom : blob -> option table.
Variable tree : Type.
Variable read_newick : string -> option tree.
Variable write_tree : tree -> string.
Variable rclr_transformation : table -> table.
Variable phylogenetic_rclr_transformation : table -> tree -> table * table * tree.

(** ** C8 *)

(** C8: the [phylogenetic-rclr] command never reads its inputs nor writes
    any artifact.  click passes the option [--in-phylogeny] as the keyword
    argument [in_phylogeny], which [standalone_phylogenetic_rclr] (whose
    parameter is [in_tree]) does not accept, so the call raises
    [TypeError] and the file system is untouched; and the body itself,
    given the tree path as a [str], raises before writing anything (the
    [str] has no [.open()] method). *)
Theorem phylogenetic_rclr_cli_fails (in_biom in_phylogeny output_dir : string) (fs : fsys) :
  cli_invoke (phylogenetic_rclr_cmd parse_biom tree read_newick write_tree
                phylogenetic_rclr_transformation)
             [("--in-biom", in_biom); ("--in-phylogeny", in_phylogeny); ("--output-dir", output_dir)] fs =
    (Raise (TypeError "got an unexpected keyword argument 'in_phylogeny'"), fs) /\
  exists e, standalone_phylogenetic_rclr parse_biom tree read_newick write_tree
              phylogenetic_rclr_transformation (PStr in_biom) (PStr in_phylogeny) (PStr output_dir) fs =
            (Raise e, fs).
Proof.
  split.
  - reflexivity.
  - unfold standalone_phylogenetic_rclr. simpl.
    destruct (load_table parse_biom in_biom fs); eexists; reflexivity.
Qed.

End Commands.

(* ------------------------------------------------------------------ *)
(** ** Per-condition distance matrices *)

Lemma Permutation_List_filter {A} (f : A -> bool) (l l' : list A) :
  l ≡ₚ l' -> List.filter f l ≡ₚ List.filter f l'.
Proof.
  induction 1 as [| x l l' _ IH | x y l | l l' l'' _ IH1 _ IH2]; simpl.
  - done.
  - destruct (f x); [by constructor | done].
  - destruct (f x), (f y); try constructor; done.
  - by rewrite IH1.
Qed.

Lemma filter_map_fst {A B} (f : A -> bool) (l : list (A * B)) :
  List.filter f (map fst l) = map fst (List.filter (fun p => f p.1) l).
Proof. induction l as [|[a b] l IH]; simpl; [done|]. destruct (f a); simpl; by rewrite IH. Qed.

Lemma omap_lookup_fst {V} (d : gmap string V) (l : list (string * V)) :
  (forall p, p ∈ l -> d !! p.1 = Some p.2) -> omap (fun k => d !! k) (map fst l) = map snd l.
Proof.
  induction l as [|[k v] l IH]; intros H; simpl; [done|].
  pose proof (H (k, v) ltac:(set_solver)) as Hk. simpl in Hk. rewrite Hk.
  f_equal. apply IH. set_solver.
Qed.

Lemma map_fst_zip_seq (l : list string) (s : nat) : map fst (zip l (seq s (length l))) = l.
Proof. revert s. induction l as [|x l IH]; intros s; simpl; [done|]. by rewrite IH. Qed.

Lemma fmap_fst_zip_seq (l : list string) (s : nat) : (zip l (seq s (length l))).*1 = l.
Proof. revert s. induction l as [|x l IH]; intros s; simpl; [done|]. by rewrite IH. Qed.

Lemma elem_of_zip_seq (l : list string) (s : nat) p :
  p ∈ zip l (seq s (length l)) -> (s <= p.2)%nat /\ l !! (p.2 - s)%nat = Some p.1.
Proof.
  revert s. induction l as [|x l IH]; intros s Hp; simpl in Hp; [set_solver|].
  apply elem_of_cons in Hp as [->|Hp].
  - simpl. split; [lia|]. by rewrite Nat.sub_diag.
  - destruct (IH (S s) Hp) as [Hle Hl]. split; [lia|].
    replace (p.2 - s)%nat with (S (p.2 - S s)) by lia. done.
Qed.

Lemma positions_sorted (l : list string) (f : string -> bool) (s : nat) :
  StronglySorted (fun i j : nat => (i <= j)%nat)
    (map snd (List.filter (fun p => f p.1) (zip l (seq s (length l))))).
Proof.
  revert s. induction l as [|x l IH]; intros s; simpl; [constructor|].
  destruct (f x); simpl; [|apply IH].
  constructor; [apply IH|].
  apply Forall_forall. intros j Hj.
  apply list_elem_of_fmap in Hj as (p & -> & Hp).
  apply list_elem_of_In, filter_In in Hp as [Hp _].
  apply list_elem_of_In, elem_of_zip_seq in Hp. lia.
Qed.

(** The positions kept by lines 182-185: those of the ids found in the
    metadata, in increasing order, whatever order the set is enumerated
    in. *)
Lemma slice_positions (ids meta_index : list string) :
  NoDup ids ->
  merge_sort (fun i j : nat => (i <= j)%nat)
    (omap (fun k => ind_dict ids !! k)
       (List.filter (fun k => mem k meta_index) (map fst (map_to_list (ind_dict ids)))))
  = map snd (List.filter (fun p => mem p.1 meta_index) (zip ids (seq 0 (length ids)))).
Proof.
  intros Hnd.
  assert (NoDup (reverse (zip ids (seq 0 (length ids)))).*1) as Hnd'.
  { rewrite fmap_reverse, fmap_fst_zip_seq. by rewrite reverse_Permutation. }
  rewrite filter_map_fst, omap_lookup_fst.
  2: { intros p Hp. apply list_elem_of_In, filter_In in Hp as [Hp _].
       by apply elem_of_map_to_list', list_elem_of_In. }
  apply (Sorted_unique_strong (fun i j : nat => (i <= j)%nat)
           (Transitive0 := ltac:(intros ???; lia))).
  - intros; lia.
  - apply Sorted_merge_sort. intros i j; lia.
  - apply StronglySorted_Sorted,
      (positions_sorted ids (fun k => mem k meta_index) 0).
  - rewrite merge_sort_Permutation. apply Permutation_map, Permutation_List_filter.
    unfold ind_dict. rewrite map_to_list_to_map by done.
    apply reverse_Permutation.
Qed.

Lemma omap_lookup_snd (ids : list string) (l : list (string * nat)) :
  (forall p, p ∈ l -> ids !! p.2 = Some p.1) -> omap (fun i => ids !! i) (map snd l) = map fst l.
Proof.
  induction l as [|[k i] l IH]; intros H; simpl; [done|].
  pose proof (H (k, i) ltac:(set_solver)) as Hk. simpl in Hk. rewrite Hk.
  f_equal. apply IH. set_solver.
Qed.

(** ** C4 *)

(** C4 (as stated, refuted): with the trajectory index [b; a] and both ids
    in the metadata, the sliced matrix and its id list keep the order
    [b; a] of the trajectory index, which is not ascending id order. *)
Lemma slice_distances_not_ascending :
  slice_distances ["b"; "a"] [[0; 1]; [1; 0]] ["a"; "b"] = ([[0; 1]; [1; 0]], ["b"; "a"]) /\
  String.leb "b" "a" = false.
Proof. split; reflexivity. Qed.

(** C4 (amended): for a duplicate-free trajectory index [ids], the
    distance matrix is restricted to the ids of [ids] found in the sample
    metadata, rows and columns taken at their positions in [ids] in
    increasing position order; the paired id list is those ids in the order
    of [ids]. *)
Theorem slice_distances_trajectory_order {A} (ids : list string) (dist : list (list A))
    (meta_index : list string) :
  NoDup ids ->
  slice_distances ids dist meta_index =
    (let P := map snd (List.filter (fun p => mem p.1 meta_index) (zip ids (seq 0 (length ids)))) in
     (map (fun row => omap (fun j => row !! j) P) (omap (fun i => dist !! i) P),
      List.filter (fun k => mem k meta_index) ids)).
Proof.
  intros Hnd. unfold slice_distances. cbv zeta.
  rewrite (slice_positions ids meta_index Hnd).
  f_equal.
  rewrite omap_lookup_snd.
  - rewrite <- (filter_map_fst (fun k => mem k meta_index)). by rewrite map_fst_zip_seq.
  - intros p Hp. apply list_elem_of_In, filter_In in Hp as [Hp _].
    apply list_elem_of_In, elem_of_zip_seq in Hp as [_ Hp].
    by rewrite Nat.sub_0_r in Hp.
Qed.

Lemma slice_distances_trajectory_order_witness :
  NoDup ["b"; "a"; "c"] /\
  slice_distances ["b"; "a"; "c"] [[0; 1; 2]; [1; 0; 3]; [2; 3; 0]] ["a"; "b"] =
    (let P := map snd (List.filter (fun p => mem p.1 ["a"; "b"])
                         (zip ["b"; "a"; "c"] (seq 0 (length ["b"; "a"; "c"])))) in
     (map (fun row => omap (fun j => row !! j) P)
          (omap (fun i => [[0; 1; 2]; [1; 0; 3]; [2; 3; 0]] !! i) P),
      List.filter (fun k => mem k ["a"; "b"]) ["b"; "a"; "c"])).
Proof.
  assert (NoDup ["b"; "a"; "c"]) as H by (apply has_dup_false_iff; reflexivity).
  split; [exact H|].
  exact (slice_distances_trajectory_order ["b"; "a"; "c"] [[0; 1; 2]; [1; 0; 3]; [2; 3; 0]] ["a"; "b"] H).
Defined.

(* ------------------------------------------------------------------ *)
(** ** Row views of the frame operations *)

Lemma rows_nil (df : frame string) : index df = [] -> rows df = [].
Proof. intros Hi. unfold rows. by rewrite Hi. Qed.

Lemma rows_cons (df : frame string) k ks :
  index df = k :: ks -> rows df = (k, row_at df 0) :: rows (frame_tail df).
Proof.
  intros Hi. unfold rows, frame_tail. simpl. rewrite Hi. simpl. f_equal.
  rewrite <- seq_shift, map_map. apply map_ext. intros i. f_equal.
  unfold row_at. simpl. rewrite map_map. apply map_ext. intros c.
  destruct (cells c); simpl; [by destruct i | done].
Qed.

Lemma frame_wf_tail {K} (df : frame K) : frame_wf df -> frame_wf (frame_tail df).
Proof.
  unfold frame_wf, frame_tail. simpl. intros H.
  induction H as [|c cs Hc _ IH]; simpl; constructor; [|done].
  cbn [cells]. destruct (cells c), (index df); simpl in *; lia.
Qed.

Lemma wf_cells_cons {K} (df : frame K) k ks c :
  frame_wf df -> index df = k :: ks -> In c (columns df) ->
  exists x xs, cells c = x :: xs.
Proof.
  unfold frame_wf. rewrite Forall_forall. intros Hwf Hi Hc.
  specialize (Hwf c (proj2 (list_elem_of_In _ _) Hc)). rewrite Hi in Hwf.
  destruct (cells c) as [|x xs]; [done | eauto].
Qed.

Lemma filter_rows_false {K} (df : frame K) k ks m :
  frame_wf df -> index df = k :: ks ->
  filter_rows (false :: m) df = filter_rows m (frame_tail df).
Proof.
  intros Hwf Hi. unfold filter_rows, frame_tail. simpl. rewrite Hi. simpl. f_equal.
  rewrite map_map. apply map_ext_in. intros c Hc. simpl.
  destruct (wf_cells_cons df k ks c Hwf Hi Hc) as (x & xs & ->). done.
Qed.

Lemma filter_rows_true {K} (df : frame K) k ks m :
  frame_wf df -> index df = k :: ks ->
  index (filter_rows (true :: m) df) = k :: mask_list m ks /\
  row_at (filter_rows (true :: m) df) 0 = row_at df 0 /\
  frame_tail (filter_rows (true :: m) df) = filter_rows m (frame_tail df).
Proof.
  intros Hwf Hi. unfold filter_rows, frame_tail, row_at. simpl. rewrite Hi. simpl.
  split; [done | split].
  - rewrite map_map. apply map_ext_in. intros c Hc. simpl.
    destruct (wf_cells_cons df k ks c Hwf Hi Hc) as (x & xs & ->). done.
  - f_equal. rewrite !map_map. apply map_ext_in. intros c Hc. simpl.
    destruct (wf_cells_cons df k ks c Hwf Hi Hc) as (x & xs & ->). done.
Qed.

Lemma rows_filter_rows (m : list bool) (df : frame string) :
  frame_wf df -> length m = length (index df) ->
  rows (filter_rows m df) = mask_list m (rows df).
Proof.
  revert df. induction m as [|b m IH]; intros df Hwf Hlen.
  - apply rows_nil. done.
  - destruct (index df) as [|k ks] eqn:Hi; [simpl in Hlen; lia|].
    rewrite (rows_cons df k ks Hi).
    assert (length m = length (index (frame_tail df))) as Hlen'
      by (unfold frame_tail; simpl; rewrite Hi; simpl in *; lia).
    destruct b.
    + destruct (filter_rows_true df k ks m Hwf Hi) as (Hi' & Hr & Ht).
      rewrite (rows_cons _ k (mask_list m ks) Hi'), Hr, Ht. simpl. f_equal.
      apply IH; [by apply frame_wf_tail | done].
    + rewrite (filter_rows_false df k ks m Hwf Hi). simpl.
      apply IH; [by apply frame_wf_tail | done].
Qed.

Lemma mask_map_filter {A} (p : A -> bool) (l : list A) :
  mask_list (map p l) l = List.filter p l.
Proof. induction l as [|x l IH]; simpl; [done|]. by destruct (p x); rewrite IH. Qed.

Lemma length_rows (df : frame string) : length (rows df) = length (index df).
Proof. unfold rows. by rewrite length_map, length_seq. Qed.

Lemma forallb_not_nan_cols (names : list string) (cs : list column) (i : nat) :
  (forall c, c ∈ cs -> mem (cname c) names = true) ->
  forallb (fun c => negb (mem (cname c) names) || bool_decide (nth i (cells c) CNaN ≠ CNaN)) cs =
  forallb not_nan (map (fun c => nth i (cells c) CNaN) cs).
Proof.
  induction cs as [|c cs IH]; intros H; simpl; [done|].
  rewrite (H c) by set_solver. simpl. unfold not_nan. f_equal. apply IH. set_solver.
Qed.

Lemma dropna_rows_mask (df : frame string) :
  dropna_rows df = filter_rows (map (fun kr => forallb not_nan kr.2) (rows df)) df.
Proof.
  unfold dropna_rows, dropna_subset, rows. f_equal. rewrite map_map. apply map_ext.
  intros i. simpl. unfold row_at. apply forallb_not_nan_cols.
  intros c Hc. apply mem_true. unfold col_names. by apply list_elem_of_fmap_2.
Qed.

Lemma rows_dropna_rows (df : frame string) :
  frame_wf df -> rows (dropna_rows df) = List.filter (fun kr => forallb not_nan kr.2) (rows df).
Proof.
  intros Hwf. rewrite dropna_rows_mask, rows_filter_rows.
  - apply mask_map_filter.
  - done.
  - by rewrite length_map, length_rows.
Qed.

Lemma col_names_dropna_rows {K} (df : frame K) : col_names (dropna_rows df) = col_names df.
Proof. unfold dropna_rows, dropna_subset, filter_rows, col_names. simpl. by rewrite map_map. Qed.

Lemma select_cols_ok {K} (names : list string) (df : frame K) :
  (forall n, n ∈ names -> n ∈ col_names df) ->
  exists s, select_cols names df = Ok s /\ index s = index df /\
    (frame_wf df -> frame_wf s) /\ (forall n, n ∈ col_names s <-> n ∈ names).
Proof.
  intros H. unfold select_cols.
  rewrite (proj2 (list_find_None _ _)).
  2: { apply Forall_forall. intros n Hn Hnot. by apply Hnot, H. }
  eexists; split; [reflexivity|]. split; [done|]. split.
  - unfold frame_wf. rewrite !Forall_forall. intros Hwf c Hc. simpl.
    apply list_elem_of_In, in_flat_map in Hc as (n & _ & Hc).
    apply filter_In in Hc as [Hc _]. by apply Hwf, list_elem_of_In.
  - intros n. unfold col_names. simpl. rewrite !list_elem_of_In. split.
    + intros Hn. apply in_map_iff in Hn as (c & <- & Hc).
      apply in_flat_map in Hc as (n' & Hn' & Hc).
      apply filter_In in Hc as [_ Heq]. apply String.eqb_eq in Heq. by rewrite Heq.
    + intros Hn. pose proof (H n (proj2 (list_elem_of_In _ _) Hn)) as Hc.
      unfold col_names in Hc. apply list_elem_of_In, in_map_iff in Hc as (c & Hcn & Hc).
      apply in_map_iff. exists c. split; [done|]. apply in_flat_map. exists n.
      split; [done|]. apply filter_In. split; [done|]. by apply String.eqb_eq.
Qed.

Lemma keep_PC_in_features (tf : tf_result) n : n ∈ keep_PC tf -> n ∈ col_names (features tf).
Proof.
  unfold keep_PC. rewrite !list_elem_of_In, filter_In. tauto.
Qed.

(** ** C5 *)

(** C5 (as stated, refuted): a subject table holding the same row twice
    keeps both copies in the ordination; only the row with a missing value
    is dropped. *)
Lemma ctf_ordination_keeps_duplicates :
  exists o, ctf_ordination example_tf_duplicate_row = Ok o /\
    rows (ord_samples o) = [("s1", [CNum 1]); ("s1", [CNum 1])] /\
    ~ NoDup (index (ord_samples o)).
Proof.
  eexists. split; [reflexivity|]. split; [reflexivity|].
  simpl. rewrite NoDup_cons. set_solver.
Qed.

(** C5 (amended): the ordination holds the eigenvalues and the proportions
    explained unchanged, and the subject and feature loadings restricted
    to the columns whose name contains "PC"; from each loading table
    exactly the rows holding a missing value are dropped, every other row
    is kept in order, duplicates included (nothing is de-duplicated). *)
Theorem ctf_ordination_pc_dropna (tf : tf_result) :
  (forall n, n ∈ keep_PC tf -> n ∈ col_names (subjects tf)) ->
  frame_wf (subjects tf) -> frame_wf (features tf) ->
  exists o s f,
    ctf_ordination tf = Ok o /\
    select_cols (keep_PC tf) (subjects tf) = Ok s /\
    select_cols (keep_PC tf) (features tf) = Ok f /\
    index s = index (subjects tf) /\ index f = index (features tf) /\
    ord_eigvals o = eigvals tf /\
    ord_proportion_explained o = proportion_explained tf /\
    (forall n, n ∈ col_names (ord_samples o) <-> n ∈ keep_PC tf) /\
    (forall n, n ∈ col_names (ord_features o) <-> n ∈ keep_PC tf) /\
    rows (ord_samples o) = List.filter (fun kr => forallb not_nan kr.2) (rows s) /\
    rows (ord_features o) = List.filter (fun kr => forallb not_nan kr.2) (rows f).
Proof.
  intros Hs Hws Hwf.
  destruct (select_cols_ok (keep_PC tf) (subjects tf) Hs) as (s & Es & Is & Ws & Ns).
  destruct (select_cols_ok (keep_PC tf) (features tf) (keep_PC_in_features tf))
    as (f & Ef & If & Wf & Nf).
  unfold ctf_ordination. rewrite Es, Ef.
  unfold mbind, pyres_bind, mret, pyres_ret.
  eexists _, s, f. cbn [ord_eigvals ord_proportion_explained ord_samples ord_features].
  do 7 (split; [done|]). cbn [ord_samples ord_features].
  split; [intros n; by rewrite col_names_dropna_rows|].
  split; [intros n; by rewrite col_names_dropna_rows|].
  split; apply rows_dropna_rows; auto.
Qed.

Lemma ctf_ordination_pc_dropna_witness :
  (forall n, n ∈ keep_PC example_tf2 -> n ∈ col_names (subjects example_tf2)) /\
  frame_wf (subjects example_tf2) /\ frame_wf (features example_tf2) /\
  exists o s f,
    ctf_ordination example_tf2 = Ok o /\
    select_cols (keep_PC example_tf2) (subjects example_tf2) = Ok s /\
    select_cols (keep_PC example_tf2) (features example_tf2) = Ok f /\
    index s = index (subjects example_tf2) /\ index f = index (features example_tf2) /\
    ord_eigvals o = eigvals example_tf2 /\
    ord_proportion_explained o = proportion_explained example_tf2 /\
    (forall n, n ∈ col_names (ord_samples o) <-> n ∈ keep_PC example_tf2) /\
    (forall n, n ∈ col_names (ord_features o) <-> n ∈ keep_PC example_tf2) /\
    rows (ord_samples o) = List.filter (fun kr => forallb not_nan kr.2) (rows s) /\
    rows (ord_features o) = List.filter (fun kr => forallb not_nan kr.2) (rows f).
Proof.
  assert (forall n, n ∈ keep_PC example_tf2 -> n ∈ col_names (subjects example_tf2)) as H1.
  { assert (keep_PC example_tf2 = ["PC1"; "PC2"]) as E by reflexivity.
    assert (col_names (subjects example_tf2) = ["PC1"; "PC2"]) as E' by reflexivity.
    rewrite E, E'. done. }
  assert (frame_wf (subjects example_tf2)) as H2 by (unfold frame_wf; simpl; repeat constructor).
  assert (frame_wf (features example_tf2)) as H3 by (unfold frame_wf; simpl; repeat constructor).
  split; [exact H1|]. split; [exact H2|]. split; [exact H3|].
  exact (ctf_ordination_pc_dropna example_tf2 H1 H2 H3).
Defined.

(* ------------------------------------------------------------------ *)
(** ** Reindexing and concatenation *)

Lemma nth_map_lt {A B} (f : A -> B) (l : list A) (j : nat) (d : B) (d' : A) :
  (j < length l)%nat -> nth j (map f l) d = f (nth j l d').
Proof.
  revert j. induction l as [|x l IH]; intros [|j] Hj; simpl in *; try lia; [done|].
  apply IH. lia.
Qed.

Lemma map_const_repeat {A B} (y : B) (l : list A) : map (fun _ => y) l = repeat y (length l).
Proof. induction l as [|x l IH]; simpl; [done|]. by rewrite IH. Qed.

Lemma get_loc_lookup (k : string) (idx : list string) (j : nat) :
  get_loc k idx = Some j -> idx !! j = Some k.
Proof.
  unfold get_loc. destruct (list_find (fun x => x = k) idx) as [[i x]|] eqn:E;
    simpl; intros H; [|done].
  injection H as <-. apply list_find_Some in E as (Hl & Hx & _). by subst.
Qed.

Lemma get_loc_elem (k : string) (idx : list string) : k ∈ idx -> is_Some (get_loc k idx).
Proof.
  intros H. unfold get_loc.
  destruct (list_find (fun x => x = k) idx) eqn:E; [by eexists|].
  apply list_find_None in E. rewrite Forall_forall in E. by destruct (E k H).
Qed.

Lemma row_at_reindex (df : frame string) (J : list string) (j : nat) :
  (j < length J)%nat ->
  row_at (reindex df J) j = default (repeat CNaN (length (columns df))) (row_of df (nth j J "")).
Proof.
  intros Hj. unfold row_at, reindex, row_of. simpl. rewrite map_map. simpl.
  transitivity (map (fun c => match get_loc (nth j J "") (index df) with
                              | Some i => nth i (cells c) CNaN
                              | None => CNaN end) (columns df)).
  { apply map_ext. intros c. by rewrite (nth_map_lt _ _ _ _ "" Hj). }
  destruct (get_loc (nth j J "") (index df)); simpl; [done|].
  apply map_const_repeat.
Qed.

Lemma row_of_reindex (df : frame string) (J : list string) (k : string) :
  row_of (reindex df J) k =
    (fun _ => default (repeat CNaN (length (columns df))) (row_of df k)) <$> get_loc k J.
Proof.
  unfold row_of at 1. change (index (reindex df J)) with J.
  destruct (get_loc k J) as [j|] eqn:E; simpl; [|done]. f_equal.
  apply get_loc_lookup in E. rewrite row_at_reindex.
  - by rewrite (nth_lookup_Some J j "" k E).
  - by apply lookup_lt_Some in E.
Qed.

Lemma col_names_reindex (df : frame string) (J : list string) :
  col_names (reindex df J) = col_names df.
Proof. unfold col_names, reindex. simpl. by rewrite map_map. Qed.

Lemma length_columns_reindex (df : frame string) (J : list string) :
  length (columns (reindex df J)) = length (columns df).
Proof. unfold reindex. simpl. by rewrite length_map. Qed.

Lemma frame_wf_reindex (df : frame string) (J : list string) : frame_wf (reindex df J).
Proof.
  unfold frame_wf, reindex. simpl. apply Forall_forall. intros c Hc.
  apply list_elem_of_In, in_map_iff in Hc as (c' & <- & _). simpl. by rewrite length_map.
Qed.

Lemma combined_index_same (a : list string) : combined_index a a = merge_sort str_le a.
Proof. unfold combined_index. by rewrite bool_decide_eq_true_2. Qed.

Lemma frame_wf_concat_cols (a b : frame string) : frame_wf (concat_cols a b).
Proof.
  unfold concat_cols, frame_wf. simpl. apply Forall_app.
  split; apply (frame_wf_reindex _ (combined_index (index a) (index b))).
Qed.

Lemma row_at_concat_cols (a b : frame string) (i : nat) :
  row_at (concat_cols a b) i =
    row_at (reindex a (combined_index (index a) (index b))) i ++
    row_at (reindex b (combined_index (index a) (index b))) i.
Proof. unfold row_at, concat_cols. simpl. apply map_app. Qed.

Lemma mask_map_map {A B} (g : A -> bool) (h : A -> B) (l : list A) :
  mask_list (map g l) (map h l) = map h (List.filter g l).
Proof. induction l as [|x l IH]; simpl; [done|]. by destruct (g x); rewrite IH. Qed.

Lemma rows_dropna_subset (S : list string) (df : frame string) :
  frame_wf df ->
  rows (dropna_subset S df) =
    map (fun i => (nth i (index df) "", row_at df i))
      (List.filter (fun i => forallb (fun c => negb (mem (cname c) S) ||
                                               bool_decide (nth i (cells c) CNaN ≠ CNaN))
                                     (columns df))
                   (seq 0 (length (index df)))).
Proof.
  intros Hwf. unfold dropna_subset. rewrite rows_filter_rows.
  - unfold rows. apply mask_map_map.
  - done.
  - by rewrite length_map, length_seq.
Qed.

Lemma forallb_not_nan_iff (v : list cell) : forallb not_nan v = true <-> Forall (fun x => x <> CNaN) v.
Proof.
  induction v as [|x v IH]; simpl; [split; [constructor | done]|].
  rewrite andb_true_iff, Forall_cons, IH. unfold not_nan. by rewrite bool_decide_eq_true.
Qed.

Lemma forallb_cols_outside (S : list string) (cs : list column) (i : nat) :
  (forall c, c ∈ cs -> mem (cname c) S = false) ->
  forallb (fun c => negb (mem (cname c) S) || bool_decide (nth i (cells c) CNaN ≠ CNaN)) cs = true.
Proof.
  induction cs as [|c cs IH]; intros H; simpl; [done|].
  rewrite (H c) by set_solver. simpl. apply IH. set_solver.
Qed.

Lemma col_names_filter_rows {K} (m : list bool) (df : frame K) :
  col_names (filter_rows m df) = col_names df.
Proof. unfold filter_rows, col_names. simpl. by rewrite map_map. Qed.

Lemma col_names_concat_cols (a b : frame string) :
  col_names (concat_cols a b) = col_names a ++ col_names b.
Proof.
  unfold concat_cols. unfold col_names at 1. cbn [columns]. rewrite map_app.
  exact (f_equal2 _ (col_names_reindex a _) (col_names_reindex b _)).
Qed.

(** The rows of the merged table of one condition, position by position. *)
Lemma merged_row (straj aux : frame string) (i : nat) :
  let idx := merge_sort str_le (index aux) in
  let merged := concat_cols (reindex straj (index aux)) aux in
  let k := nth i idx "" in
  (forall n, n ∈ col_names straj -> n ∉ col_names aux) ->
  (i < length idx)%nat ->
  k ∈ index aux /\
  forallb (fun c => negb (mem (cname c) (col_names straj)) ||
                    bool_decide (nth i (cells c) CNaN ≠ CNaN)) (columns merged)
    = forallb not_nan (default (repeat CNaN (length (columns straj))) (row_of straj k)) /\
  row_at merged i = default (repeat CNaN (length (columns straj))) (row_of straj k) ++
                    default (repeat CNaN (length (columns aux))) (row_of aux k).
Proof.
  intros idx merged k Hdisj Hi.
  assert (k ∈ index aux) as Hk.
  { rewrite <- (merge_sort_Permutation str_le (index aux)).
    apply list_elem_of_In, nth_In. exact Hi. }
  assert (combined_index (index (reindex straj (index aux))) (index aux) = idx) as Hc
    by apply combined_index_same.
  assert (row_at (reindex (reindex straj (index aux)) idx) i =
          default (repeat CNaN (length (columns straj))) (row_of straj k)) as Hs.
  { rewrite row_at_reindex by done. rewrite length_columns_reindex, row_of_reindex.
    destruct (get_loc_elem k (index aux) Hk) as [j Ej].
    fold k. rewrite Ej. done. }
  assert (row_at (reindex aux idx) i =
          default (repeat CNaN (length (columns aux))) (row_of aux k)) as Ha
    by (rewrite row_at_reindex by done; done).
  split; [done | split].
  - unfold merged, concat_cols. cbn [columns]. rewrite Hc, forallb_app.
    rewrite (forallb_cols_outside (col_names straj) (columns (reindex aux idx)) i), andb_true_r.
    + rewrite forallb_not_nan_cols.
      * change (forallb not_nan (row_at (reindex (reindex straj (index aux)) idx) i) =
                forallb not_nan (default (repeat CNaN (length (columns straj))) (row_of straj k))).
        by rewrite Hs.
      * intros c Hc'. apply mem_true.
        rewrite <- (col_names_reindex straj (index aux)),
                <- (col_names_reindex (reindex straj (index aux)) idx).
        unfold col_names. by apply list_elem_of_fmap_2.
    + intros c Hc'. apply mem_false. intros Hn. apply (Hdisj (cname c) Hn).
      rewrite <- (col_names_reindex aux idx). unfold col_names. by apply list_elem_of_fmap_2.
  - unfold merged. rewrite row_at_concat_cols, Hc, Hs, Ha. done.
Qed.

(** ** C6 *)

(** C6: for one condition, the subject trajectory output has its index
    named "#SampleID" and the trajectory columns followed by the auxiliary
    metadata columns; its rows are exactly the pairs of a sample id [k] of
    the auxiliary metadata that has a trajectory row [v] with no missing
    value, with [v] followed by the metadata row [m] of [k].  The feature
    trajectory output has the same columns, its index converted with
    Python's [str]. *)
Theorem trajectory_outputs (straj aux : frame string) (ftraj : frame pykey) :
  columns straj <> [] ->
  (forall n, n ∈ col_names straj -> n ∉ col_names aux) ->
  iname (subject_trajectory_out straj aux) = Some "#SampleID" /\
  col_names (subject_trajectory_out straj aux) = col_names straj ++ col_names aux /\
  (forall k r, (k, r) ∈ rows (subject_trajectory_out straj aux) <->
     k ∈ index aux /\
     exists v m, row_of straj k = Some v /\ Forall (fun x => x <> CNaN) v /\
                 row_of aux k = Some m /\ r = v ++ m) /\
  index (feature_trajectory_out ftraj) = map py_str (index ftraj) /\
  columns (feature_trajectory_out ftraj) = columns ftraj.
Proof.
  intros Hne Hdisj.
  split; [done|]. split.
  { change (col_names (subject_trajectory_out straj aux)) with
      (col_names (dropna_subset (col_names straj) (concat_cols (reindex straj (index aux)) aux))).
    unfold dropna_subset. by rewrite col_names_filter_rows, col_names_concat_cols, col_names_reindex. }
  split; [|done].
  intros k r.
  change (rows (subject_trajectory_out straj aux)) with
    (rows (dropna_subset (col_names straj) (concat_cols (reindex straj (index aux)) aux))).
  rewrite rows_dropna_subset by apply frame_wf_concat_cols.
  assert (index (concat_cols (reindex straj (index aux)) aux) = merge_sort str_le (index aux)) as Hidx
    by apply combined_index_same.
  rewrite Hidx, list_elem_of_In, in_map_iff. split.
  - intros (i & Heq & Hin). apply filter_In in Hin as [Hin Hg]. apply in_seq in Hin.
    destruct (merged_row straj aux i Hdisj ltac:(lia)) as (Hk & Hm & Hr).
    injection Heq as <- <-. rewrite Hm in Hg. rewrite Hr.
    split; [done|].
    destruct (get_loc_elem _ _ Hk) as [j Ej].
    assert (row_of aux (nth i (merge_sort str_le (index aux)) "") = Some (row_at aux j)) as Em
      by (unfold row_of; by rewrite Ej).
    rewrite Em. simpl.
    destruct (row_of straj (nth i (merge_sort str_le (index aux)) "")) as [v|]; simpl in *.
    + exists v, (row_at aux j). split; [done|]. split; [by apply forallb_not_nan_iff|]. done.
    + exfalso. apply forallb_not_nan_iff in Hg.
      destruct (columns straj); [done|]. simpl in Hg. apply Forall_cons in Hg as [Hg _]. done.
  - intros (Hk & v & m & Ev & Hv & Em & ->).
    assert (k ∈ merge_sort str_le (index aux)) as Hk' by (by rewrite merge_sort_Permutation).
    apply list_elem_of_lookup in Hk' as [i Hi].
    pose proof (lookup_lt_Some _ _ _ Hi) as Hlt.
    pose proof (nth_lookup_Some _ _ "" _ Hi) as Hnth.
    destruct (merged_row straj aux i Hdisj Hlt) as (_ & Hm & Hr).
    exists i. rewrite Hr, Hnth, Ev, Em. split; [done|].
    apply filter_In. split; [apply in_seq; lia|].
    rewrite Hm, Hnth, Ev. by apply forallb_not_nan_iff.
Qed.

Lemma trajectory_outputs_witness :
  columns example_straj <> [] /\
  (forall n, n ∈ col_names example_straj -> n ∉ col_names example_aux) /\
  iname (subject_trajectory_out example_straj example_aux) = Some "#SampleID" /\
  col_names (subject_trajectory_out example_straj example_aux) =
    col_names example_straj ++ col_names example_aux /\
  (forall k r, (k, r) ∈ rows (subject_trajectory_out example_straj example_aux) <->
     k ∈ index example_aux /\
     exists v m, row_of example_straj k = Some v /\ Forall (fun x => x <> CNaN) v /\
                 row_of example_aux k = Some m /\ r = v ++ m) /\
  index (feature_trajectory_out example_ftraj) = map py_str (index example_ftraj) /\
  columns (feature_trajectory_out example_ftraj) = columns example_ftraj.
Proof.
  assert (columns example_straj <> []) as H1 by discriminate.
  assert (forall n, n ∈ col_names example_straj -> n ∉ col_names example_aux) as H2.
  { assert (Forall (fun n => n ∉ col_names example_aux) (col_names example_straj)) as HF
      by (repeat constructor; apply mem_false; reflexivity).
    rewrite Forall_forall in HF. exact HF. }
  split; [exact H1|]. split; [exact H2|].
  exact (trajectory_outputs example_straj example_aux example_ftraj H1 H2).
Defined.

(** On the example inputs: the subjects "s1" and "s2" are kept, in id
    order, with their site; "s3" (missing PC2) and "s4" (no trajectory)
    are dropped; the feature ids become strings. *)
Example trajectory_outputs_example :
  rows (subject_trajectory_out example_straj example_aux) =
    [("s1", [CNum 1; CNum 4; CStr "oral"]); ("s2", [CNum 2; CNum 5; CStr "gut"])] /\
  index (feature_trajectory_out example_ftraj) = ["7"; "f2"].
Proof. split; reflexivity. Qed.

(* ================================================================== *)
(** * Further properties of the code *)

(* ------------------------------------------------------------------ *)
(** ** biom filtering: ids, counts and shape *)

Lemma mask_list_sublist {A} (m : list bool) (l : list A) : mask_list m l `sublist_of` l.
Proof.
  revert l. induction m as [|b m IH]; intros [|x l]; simpl;
    try apply sublist_nil_l.
  destruct b; [apply sublist_skip | apply sublist_cons]; apply IH.
Qed.

Lemma elem_of_mask_map_iff {A} (f : A -> bool) (l : list A) x :
  x ∈ mask_list (map f l) l <-> x ∈ l /\ f x = true.
Proof.
  split; [apply elem_of_mask_map|].
  induction l as [|y l IH]; simpl; intros [Hx Hf]; [set_solver|].
  apply elem_of_cons in Hx as [->|Hx].
  - rewrite Hf. left.
  - destruct (f y); [right|]; apply IH; done.
Qed.

Lemma zip_mask {A B} (m : list bool) (a : list A) (b : list B) :
  zip (mask_list m a) (mask_list m b) = mask_list m (zip a b).
Proof.
  revert a b. induction m as [|c m IH]; intros [|x a] [|y b]; simpl; try done.
  - by destruct c, (mask_list m a).
  - destruct c; simpl; by rewrite IH.
Qed.

Lemma mask_zip_filter {A B} (g : A -> bool) (l : list A) (r : list B) :
  mask_list (map g l) (zip l r) = List.filter (fun p => g p.1) (zip l r).
Proof.
  revert r. induction l as [|x l IH]; intros [|y r]; simpl; try done.
  by rewrite IH.
Qed.

Lemma filter_map_comm {A B} (p : B -> bool) (f : A -> B) (l : list A) :
  List.filter p (map f l) = map f (List.filter (fun x => p (f x)) l).
Proof. induction l as [|x l IH]; simpl; [done|]. destruct (p (f x)); simpl; by rewrite IH. Qed.

Lemma filter_const {A} (p : A -> bool) (b : bool) (l : list A) :
  (forall x, x ∈ l -> p x = b) -> List.filter p l = if b then l else [].
Proof.
  induction l as [|x l IH]; intros H; simpl; [by destruct b|].
  rewrite (H x) by set_solver. rewrite IH by set_solver. by destruct b.
Qed.

Lemma zip_map_r {A B C} (h : B -> C) (l : list A) (r : list B) :
  zip l (map h r) = map (fun p => (p.1, h p.2)) (zip l r).
Proof. revert r. induction l as [|x l IH]; intros [|y r]; simpl; by rewrite ?IH. Qed.

Lemma entries_filter_sample (keep : list string) (t : table) :
  entries (Biom.filter keep ASample t) = List.filter (fun e => mem e.1.2 keep) (entries t).
Proof.
  destruct t as [o s d]. unfold entries. cbn [Biom.filter obs_ids samp_ids data].
  rewrite zip_map_r. generalize (zip o d) as l. intros l.
  induction l as [|[f row] l IH]; simpl; [done|].
  rewrite List.filter_app, IH. f_equal.
  rewrite zip_mask, mask_zip_filter, filter_map_comm. f_equal.
  apply List.filter_ext. by intros [x c].
Qed.

Lemma entries_filter_obs (keep : list string) (t : table) :
  entries (Biom.filter keep AObservation t) = List.filter (fun e => mem e.1.1 keep) (entries t).
Proof.
  destruct t as [o s d]. unfold entries. cbn [Biom.filter obs_ids samp_ids data].
  rewrite zip_mask, mask_zip_filter. generalize (zip o d) as l. intros l.
  induction l as [|[f row] l IH]; simpl; [done|].
  rewrite List.filter_app, <- IH.
  rewrite (filter_const (fun e : string * string * Z => mem e.1.1 keep) (mem f keep)
             (map _ (zip s row))).
  - by destruct (mem f keep).
  - intros e He. apply list_elem_of_In, in_map_iff in He as ([x c] & <- & _). done.
Qed.

Lemma entries_ids (t : table) f s c :
  (f, s, c) ∈ entries t -> f ∈ obs_ids t /\ s ∈ samp_ids t.
Proof.
  unfold entries. rewrite list_elem_of_In, in_flat_map.
  intros ([f' row] & Hfr & He). apply in_map_iff in He as ([s' c'] & [= <- <- <-] & Hsc).
  apply in_combine_l in Hfr. apply in_combine_l in Hsc.
  split; by apply list_elem_of_In.
Qed.

Lemma mem_eq_iff (x y : string) (l l' : list string) :
  (x ∈ l <-> y ∈ l') -> mem x l = mem y l'.
Proof.
  intros H. destruct (mem y l') eqn:E.
  - apply mem_true. apply mem_true in E. tauto.
  - apply mem_false. apply mem_false in E. tauto.
Qed.

Lemma filtered_from_step (keep : list string) (ax : axis) (t : table) :
  filtered_from t (Biom.filter keep ax t).
Proof.
  destruct ax; split_and!.
  - apply mask_list_sublist.
  - simpl. reflexivity.
  - rewrite entries_filter_sample. apply List.filter_ext_in. intros [[f s] c] He.
    apply list_elem_of_In, entries_ids in He as [Hf Hs]. simpl.
    rewrite (proj2 (mem_true f (obs_ids t)) Hf). simpl.
    apply mem_eq_iff. rewrite elem_of_mask_map_iff, mem_true. tauto.
  - simpl. reflexivity.
  - apply mask_list_sublist.
  - rewrite entries_filter_obs. apply List.filter_ext_in. intros [[f s] c] He.
    apply list_elem_of_In, entries_ids in He as [Hf Hs]. simpl.
    rewrite (proj2 (mem_true s (samp_ids t)) Hs), andb_true_r.
    apply mem_eq_iff. rewrite elem_of_mask_map_iff, mem_true. tauto.
Qed.

Lemma filtered_from_trans (t t1 t2 : table) :
  filtered_from t t1 -> filtered_from t1 t2 -> filtered_from t t2.
Proof.
  intros (Hs1 & Ho1 & He1) (Hs2 & Ho2 & He2). split_and!.
  - by transitivity (samp_ids t1).
  - by transitivity (obs_ids t1).
  - rewrite He2, He1, filter_filter_andb. apply List.filter_ext_in. intros [[f s] c] _. simpl.
    destruct (mem f (obs_ids t2)) eqn:Ef, (mem s (samp_ids t2)) eqn:Es; simpl;
      rewrite ?andb_false_r; try done.
    apply mem_true in Ef, Es.
    rewrite (proj2 (mem_true _ _) (elem_of_sublist _ _ _ Ef Ho2)),
            (proj2 (mem_true _ _) (elem_of_sublist _ _ _ Es Hs2)). done.
Qed.

Lemma filter_min_counts_filtered (msc mfc : Z) (t : table) :
  filtered_from t (filter_min_counts msc mfc t).
Proof.
  unfold filter_min_counts. cbn [fold_left].
  eapply filtered_from_trans; apply filtered_from_step.
Qed.

Lemma align_ids_filtered (t : table) (meta_ids : list string) (fmeta : option (list string))
    (t2 : table) :
  align_ids t meta_ids fmeta = Ok t2 -> filtered_from t t2.
Proof.
  unfold align_ids. destruct fmeta as [fm|].
  - destruct (Nat.eqb (length (py_set_inter (obs_ids t) fm)) 0); [discriminate|].
    destruct (Nat.eqb (length (py_set_inter (samp_ids t) meta_ids)) 0); [discriminate|].
    intros H.
    assert (Biom.filter (py_set_inter (samp_ids t) meta_ids) ASample
              (Biom.filter (py_set_inter (obs_ids t) fm) AObservation t) = t2) as <- by congruence.
    eapply filtered_from_trans; apply filtered_from_step.
  - destruct (Nat.eqb (length (py_set_inter (samp_ids t) meta_ids)) 0); [discriminate|].
    intros H.
    assert (Biom.filter (py_set_inter (samp_ids t) meta_ids) ASample t = t2) as <- by congruence.
    apply filtered_from_step.
Qed.

(** The counts and ids of a successful alignment and filtering run. *)
Theorem ctf_align_keeps_counts (t : table) (meta_ids : list string)
    (fmeta : option (list string)) (msc mfc : Z) (t1 t' : table) :
  ctf_align t meta_ids fmeta msc mfc = (Ok t1, t') ->
  samp_ids t1 `sublist_of` samp_ids t /\
  obs_ids t1 `sublist_of` obs_ids t /\
  entries t1 = List.filter (fun e => mem e.1.1 (obs_ids t1) && mem e.1.2 (samp_ids t1)) (entries t).
Proof.
  unfold ctf_align. destruct (validate_ids t); [discriminate|].
  destruct (align_ids t meta_ids fmeta) as [t2|e] eqn:Ha; [|discriminate].
  intros [= <- _].
  exact (filtered_from_trans _ _ _ (align_ids_filtered _ _ _ _ Ha)
           (filter_min_counts_filtered msc mfc t2)).
Qed.

Lemma ctf_align_keeps_counts_witness :
  ctf_align (mktable ["f1"; "f2"] ["s1"; "s2"] [[1; 1]; [0; 5]]) ["s1"; "s2"] None 2 2 =
    (Ok (mktable ["f2"] ["s2"] [[5]]), mktable ["f2"] ["s2"] [[5]]) /\
  samp_ids (mktable ["f2"] ["s2"] [[5]]) `sublist_of` samp_ids (mktable ["f1"; "f2"] ["s1"; "s2"] [[1; 1]; [0; 5]]) /\
  obs_ids (mktable ["f2"] ["s2"] [[5]]) `sublist_of` obs_ids (mktable ["f1"; "f2"] ["s1"; "s2"] [[1; 1]; [0; 5]]) /\
  entries (mktable ["f2"] ["s2"] [[5]]) =
    List.filter (fun e => mem e.1.1 (obs_ids (mktable ["f2"] ["s2"] [[5]])) &&
                          mem e.1.2 (samp_ids (mktable ["f2"] ["s2"] [[5]])))
                (entries (mktable ["f1"; "f2"] ["s1"; "s2"] [[1; 1]; [0; 5]])).
Proof.
  assert (ctf_align (mktable ["f1"; "f2"] ["s1"; "s2"] [[1; 1]; [0; 5]]) ["s1"; "s2"] None 2 2 =
    (Ok (mktable ["f2"] ["s2"] [[5]]), mktable ["f2"] ["s2"] [[5]])) as H by reflexivity.
  split; [exact H|]. exact (ctf_align_keeps_counts _ _ _ _ _ _ _ H).
Defined.

Lemma length_mask_list {A B} (m : list bool) (l1 : list A) (l2 : list B) :
  length l1 = length l2 -> length (mask_list m l1) = length (mask_list m l2).
Proof.
  revert l1 l2. induction m as [|b m IH]; intros [|x l1] [|y l2] H; simpl in *; try lia.
  destruct b; simpl; rewrite (IH l1 l2); lia.
Qed.

Lemma Forall_mask_list {A} (P : A -> Prop) (m : list bool) (l : list A) :
  Forall P l -> Forall P (mask_list m l).
Proof.
  rewrite !Forall_forall. intros H x Hx. apply H. eapply elem_of_sublist; [exact Hx|].
  apply mask_list_sublist.
Qed.

Lemma filter_well_formed (keep : list string) (ax : axis) (t : table) :
  well_formed t -> well_formed (Biom.filter keep ax t).
Proof.
  intros [Hl Hr]. destruct ax; unfold well_formed; simpl; split.
  - by rewrite length_map.
  - apply Forall_map. eapply Forall_impl; [exact Hr|]. intros row Hrow. by apply length_mask_list.
  - by apply length_mask_list.
  - by apply Forall_mask_list.
Qed.

Lemma lookup_map_list {A B} (f : A -> B) (l : list A) (j : nat) : map f l !! j = f <$> l !! j.
Proof. revert j. induction l as [|x l IH]; intros [|j]; simpl; auto. Qed.

(** With distinct ids, the id-based mask of [table.filter] selects
    exactly the positions whose own test succeeded. *)
Lemma mask_mem_nodup {B} (g : B -> bool) (v : list B) (l : list string) :
  NoDup l -> length v = length l ->
  map (fun x => mem x (mask_list (map g v) l)) l = map g v.
Proof.
  revert v. induction l as [|x l IH]; intros [|y v] Hnd Hlen; simpl in *; try done; try lia.
  apply NoDup_cons in Hnd as [Hx Hnd].
  assert (x ∉ mask_list (map g v) l) as Hx'
    by (intros H; apply Hx; eapply elem_of_sublist; [exact H | apply mask_list_sublist]).
  f_equal.
  - destruct (g y).
    + apply mem_true. left.
    + by apply mem_false.
  - transitivity (map (fun z => mem z (mask_list (map g v) l)) l); [|apply IH; [done | lia]].
    apply map_ext_in. intros z Hz. apply mem_eq_iff. assert (z <> x) by (intros ->; apply Hx, list_elem_of_In, Hz).
    destruct (g y); [rewrite elem_of_cons|]; tauto.
Qed.

Lemma mask_mem_pos {B} (g : B -> bool) (v : list B) (l : list string) (j : nat) (x : string) (d : B) :
  NoDup l -> length v = length l -> l !! j = Some x ->
  x ∈ mask_list (map g v) l -> g (nth j v d) = true.
Proof.
  intros Hnd Hlen Hj Hx.
  pose proof (f_equal (fun L => L !! j) (mask_mem_nodup g v l Hnd Hlen)) as E. simpl in E.
  rewrite !lookup_map_list, Hj in E.
  assert (is_Some (v !! j)) as [y Hy] by (apply lookup_lt_is_Some; apply lookup_lt_Some in Hj; lia).
  rewrite Hy in E. simpl in E. injection E as E.
  rewrite (nth_lookup_Some v j d y Hy), <- E. by apply mem_true.
Qed.

Lemma obs_filter_meeting (t : table) (m : Z) :
  NoDup (obs_ids t) -> length (data t) = length (obs_ids t) ->
  data (Biom.filter (ids_meeting (obs_ids t) (Biom.sum AObservation t) m) AObservation t) =
    List.filter (fun r => Z.leb m (sum_list r)) (data t).
Proof.
  intros Hnd Hlen. cbn [Biom.filter data Biom.sum]. unfold ids_meeting.
  rewrite (mask_mem_nodup (fun s => Z.leb m s) (map sum_list (data t)) (obs_ids t) Hnd)
    by (rewrite length_map; done).
  rewrite map_map. apply mask_map_filter.
Qed.

(** The count thresholds of lines 124-129, on a table with distinct ids:
    every feature left has a total of at least [min_feature_count]; every
    sample left had a total of at least [min_sample_count] in the table
    before the features were filtered. *)
Theorem filter_min_counts_thresholds (msc mfc : Z) (t : table) :
  well_formed t -> NoDup (samp_ids t) -> NoDup (obs_ids t) ->
  Forall (fun s => mfc <= s) (Biom.sum AObservation (filter_min_counts msc mfc t)) /\
  (forall j s, samp_ids t !! j = Some s -> s ∈ samp_ids (filter_min_counts msc mfc t) ->
     msc <= nth j (Biom.sum ASample t) 0).
Proof.
  intros Hwf Hs Ho. unfold filter_min_counts. cbn [fold_left ids].
  set (t1 := Biom.filter (ids_meeting (samp_ids t) (Biom.sum ASample t) msc) ASample t).
  split.
  - pose proof (filter_well_formed (ids_meeting (samp_ids t) (Biom.sum ASample t) msc) ASample t Hwf)
      as [Hl _].
    change (Biom.sum AObservation ?X) with (map sum_list (data X)).
    rewrite (obs_filter_meeting t1 mfc Ho Hl).
    apply Forall_map, Forall_forall. intros r Hr.
    apply list_elem_of_In, filter_In in Hr as [_ Hr]. by apply Z.leb_le.
  - intros j s Hj Hin. cbn [Biom.filter samp_ids] in Hin. unfold t1 in Hin. cbn [Biom.filter samp_ids] in Hin.
    apply elem_of_mask_map in Hin as [_ Hin]. apply mem_true in Hin. unfold ids_meeting in Hin.
    apply Z.leb_le.
    exact (mask_mem_pos (fun s => Z.leb msc s) (Biom.sum ASample t) (samp_ids t) j s 0 Hs
             (length_sum_sample t) Hj Hin).
Qed.

Lemma filter_min_counts_thresholds_witness :
  well_formed (mktable ["f1"; "f2"] ["s1"; "s2"] [[1; 1]; [0; 5]]) /\
  NoDup ["s1"; "s2"] /\ NoDup ["f1"; "f2"] /\
  Forall (fun s => 2 <= s)
    (Biom.sum AObservation (filter_min_counts 2 2 (mktable ["f1"; "f2"] ["s1"; "s2"] [[1; 1]; [0; 5]]))) /\
  (forall j s, samp_ids (mktable ["f1"; "f2"] ["s1"; "s2"] [[1; 1]; [0; 5]]) !! j = Some s ->
     s ∈ samp_ids (filter_min_counts 2 2 (mktable ["f1"; "f2"] ["s1"; "s2"] [[1; 1]; [0; 5]])) ->
     2 <= nth j (Biom.sum ASample (mktable ["f1"; "f2"] ["s1"; "s2"] [[1; 1]; [0; 5]])) 0).
Proof.
  assert (well_formed (mktable ["f1"; "f2"] ["s1"; "s2"] [[1; 1]; [0; 5]])) as H1
    by (split; [reflexivity | repeat constructor]).
  assert (NoDup ["s1"; "s2"]) as H2 by (apply has_dup_false_iff; reflexivity).
  assert (NoDup ["f1"; "f2"]) as H3 by (apply has_dup_false_iff; reflexivity).
  split; [exact H1|]. split; [exact H2|]. split; [exact H3|].
  exact (filter_min_counts_thresholds 2 2 _ H1 H2 H3).
Defined.

(** The sample threshold is checked before the features are filtered:
    here the sample "s1" passes with total 2, then loses the feature "f1"
    (total 1) and is left with total 1. *)
Example filter_min_counts_sample_total_drops :
  filter_min_counts 2 2 (mktable ["f1"; "f2"] ["s1"; "s2"] [[1; 0]; [1; 5]]) =
    mktable ["f2"] ["s1"; "s2"] [[1; 5]] /\
  Biom.sum ASample (mktable ["f2"] ["s1"; "s2"] [[1; 5]]) = [1; 5].
Proof. split; reflexivity. Qed.

(* ------------------------------------------------------------------ *)
(** ** Sample metadata: missing columns and the selected columns *)

Lemma list_find_missing (names cols : list string) :
  (exists n, n ∈ names /\ n ∉ cols) ->
  exists i m, list_find (fun n => n ∉ cols) names = Some (i, m) /\ m ∈ names /\ m ∉ cols.
Proof.
  intros [n [Hn Hc]].
  destruct (list_find (fun n => n ∉ cols) names) as [[i m]|] eqn:E.
  - apply list_find_Some in E as (Hi & Hm & _). exists i, m. split; [done|].
    split; [by eapply list_elem_of_lookup_2 | done].
  - apply list_find_None in E. rewrite Forall_forall in E. exfalso. by apply (E n Hn).
Qed.

Lemma list_find_all_present (names cols : list string) :
  (forall n, n ∈ names -> n ∈ cols) -> list_find (fun n => n ∉ cols) names = None.
Proof.
  intros H. apply list_find_None, Forall_forall. intros n Hn Hc. by apply Hc, H.
Qed.

Lemma names_filter_eqb (cs : list column) (n : string) :
  NoDup (map cname cs) -> n ∈ map cname cs ->
  map cname (List.filter (fun c => String.eqb (cname c) n) cs) = [n].
Proof.
  induction cs as [|c cs IH]; simpl; intros Hnd Hn; [by apply elem_of_nil in Hn|].
  apply NoDup_cons in Hnd as [Hc Hnd].
  destruct (String.eqb_spec (cname c) n) as [<-|Hne]; simpl.
  - f_equal. clear IH. induction cs as [|c' cs IH']; simpl; [done|].
    destruct (String.eqb_spec (cname c') (cname c)) as [E|]; simpl.
    + exfalso. apply Hc. simpl. rewrite E. left.
    + apply IH'; [intros H; apply Hc; by right | by apply NoDup_cons in Hnd as [_ ?] | left].
  - apply IH; [done|]. apply elem_of_cons in Hn as [->|]; [done|done].
Qed.

Lemma select_cols_names {K} (names : list string) (df : frame K) :
  NoDup (col_names df) -> (forall n, n ∈ names -> n ∈ col_names df) ->
  exists sel, select_cols names df = Ok sel /\ col_names sel = names /\
              index sel = index df /\ iname sel = iname df.
Proof.
  intros Hnd Hin. unfold select_cols. rewrite list_find_all_present by done.
  eexists. split; [reflexivity|]. split; [|done].
  unfold col_names. cbn [columns with_columns].
  induction names as [|n names IH]; simpl; [done|].
  rewrite map_app, names_filter_eqb; [| done | apply Hin; left]. simpl. f_equal.
  apply IH. intros m Hm. apply Hin. by right.
Qed.

(** Lines 65-88: when a declared subject or state column is missing from
    the sample metadata (in either form), the step raises [KeyError] on a
    declared column that the metadata lacks. *)
Theorem ctf_metadata_missing_column (q2_roundtrip : frame string -> pyres (frame string))
    (md : md_input) (individual_id_column : string) (state_columns : list string) (n : string) :
  n ∈ state_columns ++ [individual_id_column] -> n ∉ col_names (md_frame md) ->
  exists m, m ∈ state_columns ++ [individual_id_column] /\ (m ∉ col_names (md_frame md)) /\
    ctf_metadata q2_roundtrip md individual_id_column state_columns = Raise (KeyError m).
Proof.
  intros Hn Hc.
  destruct (list_find_missing (state_columns ++ [individual_id_column]) (col_names (md_frame md)))
    as (i & m & Hf & Hm & Hmc); [by exists n|].
  exists m. split; [done|]. split; [done|].
  unfold ctf_metadata, mbind, pyres_bind. destruct md as [df|df]; simpl in *;
    unfold drop_cols; by rewrite Hf.
Qed.

Lemma ctf_metadata_missing_column_witness :
  "day" ∈ ["day"] ++ ["subject"] /\ ("day" ∉ col_names (md_frame (MDataFrame example_metadata))) /\
  exists m, m ∈ ["day"] ++ ["subject"] /\ (m ∉ col_names (md_frame (MDataFrame example_metadata))) /\
    ctf_metadata (fun f => Ok f) (MDataFrame example_metadata) "subject" ["day"] = Raise (KeyError m).
Proof.
  assert ("day" ∈ ["day"] ++ ["subject"]) as H1 by (left).
  assert ("day" ∉ col_names (md_frame (MDataFrame example_metadata))) as H2
    by (apply mem_false; reflexivity).
  split; [exact H1|]. split; [exact H2|].
  exact (ctf_metadata_missing_column (fun f => Ok f) (MDataFrame example_metadata) "subject" ["day"]
           "day" H1 H2).
Defined.

(** Lines 65-88 when every declared column is present and the column
    names are distinct: [sample_metadata[keep_cols]] has exactly the
    columns [state_columns + [individual_id_column]], in that order, and
    the index of the metadata; the auxiliary frame keeps that index too.
    A [qiime2.Metadata] input then always succeeds; a raw [DataFrame]
    succeeds or raises exactly as the validation round trip does on the
    selected columns. *)
Theorem ctf_metadata_selected (q2_roundtrip : frame string -> pyres (frame string))
    (md : md_input) (individual_id_column : string) (state_columns : list string) :
  NoDup (col_names (md_frame md)) ->
  (forall n, n ∈ state_columns ++ [individual_id_column] -> n ∈ col_names (md_frame md)) ->
  exists sel aux,
    select_cols (state_columns ++ [individual_id_column]) (md_frame md) = Ok sel /\
    col_names sel = state_columns ++ [individual_id_column] /\
    index sel = index (md_frame md) /\ index aux = index (md_frame md) /\
    ctf_metadata q2_roundtrip md individual_id_column state_columns =
      match md with
      | MDataFrame _ => match q2_roundtrip sel with Ok sm => Ok (sm, aux) | Raise e => Raise e end
      | MQiime _ => Ok (sel, aux)
      end.
Proof.
  intros Hnd Hin.
  destruct (select_cols_names (state_columns ++ [individual_id_column]) (md_frame md) Hnd Hin)
    as (sel & Hsel & Hn & Hi & _).
  unfold ctf_metadata, mbind, pyres_bind, mret, pyres_ret.
  assert (drop_cols (state_columns ++ [individual_id_column]) (md_frame md) =
            Ok (with_columns (md_frame md)
                  (List.filter (fun c => negb (mem (cname c) (state_columns ++ [individual_id_column])))
                               (columns (md_frame md))))) as Hd
    by (unfold drop_cols; by rewrite list_find_all_present).
  destruct md as [df|df]; simpl in *; rewrite Hd, Hsel.
  - eexists sel, _. split; [done|]. split; [done|]. split; [done|]. split; [|reflexivity]. done.
  - eexists sel, _. split; [done|]. split; [done|]. split; [done|]. split; [|reflexivity]. done.
Qed.

Lemma ctf_metadata_selected_witness :
  NoDup (col_names (md_frame (MDataFrame example_metadata))) /\
  (forall n, n ∈ ["time"] ++ ["subject"] -> n ∈ col_names (md_frame (MDataFrame example_metadata))) /\
  exists sel aux,
    select_cols (["time"] ++ ["subject"]) (md_frame (MDataFrame example_metadata)) = Ok sel /\
    col_names sel = ["time"] ++ ["subject"] /\
    index sel = index (md_frame (MDataFrame example_metadata)) /\
    index aux = index (md_frame (MDataFrame example_metadata)) /\
    ctf_metadata (fun f => Ok f) (MDataFrame example_metadata) "subject" ["time"] = Ok (sel, aux).
Proof.
  assert (NoDup (col_names (md_frame (MDataFrame example_metadata)))) as H1
    by (apply has_dup_false_iff; reflexivity).
  assert (forall n, n ∈ ["time"] ++ ["subject"] -> n ∈ col_names (md_frame (MDataFrame example_metadata)))
    as H2.
  { intros n Hn. apply mem_true. repeat (apply elem_of_cons in Hn as [->|Hn]; [reflexivity|]).
    by apply elem_of_nil in Hn. }
  split; [exact H1|]. split; [exact H2|].
  exact (ctf_metadata_selected (fun f => Ok f) (MDataFrame example_metadata) "subject" ["time"] H1 H2).
Defined.

(* ------------------------------------------------------------------ *)
(** ** C2: an empty sample intersection, from the metadata step on *)

Lemma ctf_metadata_raises_missing (q2_roundtrip : frame string -> pyres (frame string))
    (md : md_input) (individual_id_column : string) (state_columns : list string) :
  (exists n, n ∈ state_columns ++ [individual_id_column] /\ n ∉ col_names (md_frame md)) ->
  exists m, ctf_metadata q2_roundtrip md individual_id_column state_columns = Raise (KeyError m) /\
    m ∈ state_columns ++ [individual_id_column] /\ m ∉ col_names (md_frame md).
Proof.
  intros Hn.
  destruct (list_find_missing (state_columns ++ [individual_id_column]) (col_names (md_frame md)) Hn)
    as (i & m & Hf & Hm & Hmc).
  exists m. split; [|done].
  unfold ctf_metadata, mbind, pyres_bind. destruct md as [df|df]; simpl in *;
    unfold drop_cols; by rewrite Hf.
Qed.

(** The id validation and alignment on a table none of whose sample ids
    is in [meta_ids]: the [ValueError] raised, check by check. *)
Lemma ctf_align_empty_error (t : table) (meta_ids : list string)
    (fmeta : option (list string)) (msc mfc : Z) :
  (forall s, s ∈ samp_ids t -> s ∉ meta_ids) ->
  exists msg, ctf_align t meta_ids fmeta msc mfc = (Raise (ValueError msg), t) /\
    (~ NoDup (samp_ids t) -> msg = msg_dup_samples) /\
    (NoDup (samp_ids t) -> ~ NoDup (obs_ids t) -> msg = msg_dup_features) /\
    (NoDup (samp_ids t) -> NoDup (obs_ids t) -> forall fm, fmeta = Some fm ->
       (forall f, f ∈ obs_ids t -> f ∉ fm) -> msg = msg_no_features_fmeta) /\
    (NoDup (samp_ids t) -> NoDup (obs_ids t) ->
       (forall fm, fmeta = Some fm -> exists f, f ∈ obs_ids t /\ f ∈ fm) -> msg = msg_no_features_smeta).
Proof.
  intros Hempty. unfold ctf_align, validate_ids.
  destruct (has_dup (samp_ids t)) eqn:Hs.
  { exists msg_dup_samples. split; [done|].
    assert (~ NoDup (samp_ids t)) as Hnd by (rewrite <- has_dup_false_iff; congruence).
    split; [done|]. split; [|split]; intros; contradiction. }
  destruct (has_dup (obs_ids t)) eqn:Ho.
  { exists msg_dup_features. split; [done|].
    assert (~ NoDup (obs_ids t)) as Hnd by (rewrite <- has_dup_false_iff; congruence).
    assert (NoDup (samp_ids t)) as Hsd by (by apply has_dup_false_iff).
    split; [intros; contradiction|]. split; [done|]. split; intros; contradiction. }
  assert (NoDup (samp_ids t)) as Hsd by (by apply has_dup_false_iff).
  assert (NoDup (obs_ids t)) as Hod by (by apply has_dup_false_iff).
  unfold align_ids. rewrite (py_set_inter_empty (samp_ids t) meta_ids Hempty).
  destruct fmeta as [fm|].
  - destruct (Nat.eqb (length (py_set_inter (obs_ids t) fm)) 0) eqn:Ef.
    + exists msg_no_features_fmeta. split; [done|].
      split; [intros; contradiction|]. split; [intros; contradiction|]. split; [done|].
      intros _ _ Hf. destruct (Hf fm eq_refl) as (f & Hf1 & Hf2).
      by rewrite (py_set_inter_nonempty _ _ f Hf1 Hf2) in Ef.
    + exists msg_no_features_smeta. split; [done|].
      split; [intros; contradiction|]. split; [intros; contradiction|]. split; [|done].
      intros _ _ fm' [= <-] Hf. by rewrite (py_set_inter_empty _ _ Hf) in Ef.
  - exists msg_no_features_smeta. split; [done|].
    split; [intros; contradiction|]. split; [intros; contradiction|]. split; [|done].
    intros _ _ fm' [=].
Qed.

(** C2 (amended): when the sample metadata passes the metadata step and no
    sample id of the table is in its index, [ctf_helper] raises before any
    filtering, building or factorization, and the caller's table is
    untouched. The metadata step comes first: it raises [KeyError] on a
    missing declared column, and an error of the metadata validation
    (for the sample or the feature metadata) is raised as it is. After it,
    the error is a [ValueError]: duplicate sample ids, else duplicate
    feature ids, else an empty feature intersection when feature metadata
    is given, each with its own message, and otherwise the message naming
    [`sample-metadata`] and [`table`]. *)
Theorem ctf_prepare_empty_sample_intersection (q2_roundtrip : frame string -> pyres (frame string))
    (t : table) (md : md_input) (individual_id_column : string) (state_columns : list string)
    (feature_metadata : option md_input) (msc mfc : Z) :
  (forall sm aux, ctf_metadata q2_roundtrip md individual_id_column state_columns = Ok (sm, aux) ->
     forall s, s ∈ samp_ids t -> s ∉ index sm) ->
  exists e,
    ctf_prepare q2_roundtrip t md individual_id_column state_columns feature_metadata msc mfc
      = (Raise e, t) /\
    ((exists n, n ∈ state_columns ++ [individual_id_column] /\ n ∉ col_names (md_frame md)) ->
       exists m, e = KeyError m /\ m ∈ state_columns ++ [individual_id_column] /\
                 m ∉ col_names (md_frame md)) /\
    (forall e', ctf_metadata q2_roundtrip md individual_id_column state_columns = Raise e' -> e = e') /\
    (forall sm aux e', ctf_metadata q2_roundtrip md individual_id_column state_columns = Ok (sm, aux) ->
       feature_md q2_roundtrip feature_metadata = Raise e' -> e = e') /\
    (forall sm aux fm, ctf_metadata q2_roundtrip md individual_id_column state_columns = Ok (sm, aux) ->
       feature_md q2_roundtrip feature_metadata = Ok fm ->
       exists msg, e = ValueError msg /\
         (~ NoDup (samp_ids t) -> msg = msg_dup_samples) /\
         (NoDup (samp_ids t) -> ~ NoDup (obs_ids t) -> msg = msg_dup_features) /\
         (NoDup (samp_ids t) -> NoDup (obs_ids t) -> forall f, fm = Some f ->
            (forall x, x ∈ obs_ids t -> x ∉ index f) -> msg = msg_no_features_fmeta) /\
         (NoDup (samp_ids t) -> NoDup (obs_ids t) ->
            (forall f, fm = Some f -> exists x, x ∈ obs_ids t /\ x ∈ index f) ->
            msg = msg_no_features_smeta)).
Proof.
  intros Hempty. unfold ctf_prepare.
  destruct (ctf_metadata q2_roundtrip md individual_id_column state_columns)
    as [[sm aux]|e0] eqn:Em.
  - assert (~ exists n, n ∈ state_columns ++ [individual_id_column] /\ n ∉ col_names (md_frame md))
      as Hnm.
    { intros Hn. destruct (ctf_metadata_raises_missing q2_roundtrip md individual_id_column
                             state_columns Hn) as (m & Hr & _). congruence. }
    destruct (feature_md q2_roundtrip feature_metadata) as [fm|e1] eqn:Ef.
    + destruct (ctf_align_empty_error t (index sm) (index <$> fm) msc mfc (Hempty sm aux eq_refl))
        as (msg & Ha & H1 & H2 & H3 & H4).
      exists (ValueError msg). split; [done|].
      split; [intros Hn; contradiction|]. split; [intros e' [=]|].
      split; [intros ? ? e' [= <- <-] [=]|].
      intros sm' aux' fm' [= <- <-] [= <-]. exists msg. split; [done|].
      split; [done|]. split; [done|]. split.
      * intros Hs Ho f -> Hf. apply (H3 Hs Ho (index f) eq_refl Hf).
      * intros Hs Ho Hf. apply (H4 Hs Ho). intros fi Hfi.
        destruct fm as [f|]; [|discriminate]. injection Hfi as <-. apply (Hf f eq_refl).
    + exists e1. split; [done|].
      split; [intros Hn; contradiction|]. split; [intros e' [=]|].
      split; [intros ? ? e' [= <- <-] [= <-]; done|].
      intros ? ? fm [= <- <-] [=].
  - exists e0. split; [done|]. split.
    + intros Hn. destruct (ctf_metadata_raises_missing q2_roundtrip md individual_id_column
                             state_columns Hn) as (m & Hr & Hm).
      rewrite Hr in Em. injection Em as <-. by exists m.
    + split; [intros e' [= <-]; done|]. split; intros ? ? ? [=].
Qed.

Lemma ctf_prepare_empty_sample_intersection_witness :
  (forall sm aux, ctf_metadata (fun f => Ok f) (MDataFrame example_metadata) "subject" ["time"]
                    = Ok (sm, aux) ->
     forall s, s ∈ samp_ids (mktable ["f1"] ["s1"; "s2"] [[1; 2]]) -> s ∉ index sm) /\
  exists e,
    ctf_prepare (fun f => Ok f) (mktable ["f1"] ["s1"; "s2"] [[1; 2]]) (MDataFrame example_metadata)
      "subject" ["time"] None 0 0 = (Raise e, mktable ["f1"] ["s1"; "s2"] [[1; 2]]) /\
    ((exists n, n ∈ ["time"] ++ ["subject"] /\ n ∉ col_names (md_frame (MDataFrame example_metadata))) ->
       exists m, e = KeyError m /\ m ∈ ["time"] ++ ["subject"] /\
                 m ∉ col_names (md_frame (MDataFrame example_metadata))) /\
    (forall e', ctf_metadata (fun f => Ok f) (MDataFrame example_metadata) "subject" ["time"]
                  = Raise e' -> e = e') /\
    (forall sm aux e', ctf_metadata (fun f => Ok f) (MDataFrame example_metadata) "subject" ["time"]
                         = Ok (sm, aux) ->
       feature_md (fun f => Ok f) None = Raise e' -> e = e') /\
    (forall sm aux fm, ctf_metadata (fun f => Ok f) (MDataFrame example_metadata) "subject" ["time"]
                         = Ok (sm, aux) ->
       feature_md (fun f => Ok f) None = Ok fm ->
       exists msg, e = ValueError msg /\
         (~ NoDup (samp_ids (mktable ["f1"] ["s1"; "s2"] [[1; 2]])) -> msg = msg_dup_samples) /\
         (NoDup (samp_ids (mktable ["f1"] ["s1"; "s2"] [[1; 2]])) ->
          ~ NoDup (obs_ids (mktable ["f1"] ["s1"; "s2"] [[1; 2]])) -> msg = msg_dup_features) /\
         (NoDup (samp_ids (mktable ["f1"] ["s1"; "s2"] [[1; 2]])) ->
          NoDup (obs_ids (mktable ["f1"] ["s1"; "s2"] [[1; 2]])) -> forall f, fm = Some f ->
            (forall x, x ∈ obs_ids (mktable ["f1"] ["s1"; "s2"] [[1; 2]]) -> x ∉ index f) ->
            msg = msg_no_features_fmeta) /\
         (NoDup (samp_ids (mktable ["f1"] ["s1"; "s2"] [[1; 2]])) ->
          NoDup (obs_ids (mktable ["f1"] ["s1"; "s2"] [[1; 2]])) ->
            (forall f, fm = Some f -> exists x, x ∈ obs_ids (mktable ["f1"] ["s1"; "s2"] [[1; 2]]) /\
                                               x ∈ index f) ->
            msg = msg_no_features_smeta)).
Proof.
  assert (forall sm aux, ctf_metadata (fun f => Ok f) (MDataFrame example_metadata) "subject" ["time"]
                           = Ok (sm, aux) ->
            forall s, s ∈ samp_ids (mktable ["f1"] ["s1"; "s2"] [[1; 2]]) -> s ∉ index sm) as H.
  { intros sm aux Hm. vm_compute in Hm. injection Hm as <- _. simpl. set_solver. }
  split; [exact H|].
  exact (ctf_prepare_empty_sample_intersection (fun f => Ok f) (mktable ["f1"] ["s1"; "s2"] [[1; 2]])
           (MDataFrame example_metadata) "subject" ["time"] None 0 0 H).
Defined.

(* ------------------------------------------------------------------ *)
(** ** Per-condition distance matrices for any trajectory index *)

Lemma ind_dict_lookup (ids : list string) (k : string) (i : nat) :
  ind_dict ids !! k = Some i -> ids !! i = Some k.
Proof.
  unfold ind_dict. intros H. apply elem_of_list_to_map_2 in H. rewrite elem_of_reverse in H.
  apply (elem_of_zip_seq ids 0 (k, i)) in H as [_ H]. simpl in H. by rewrite Nat.sub_0_r in H.
Qed.

Lemma ind_dict_key (ids : list string) (k : string) :
  is_Some (ind_dict ids !! k) <-> k ∈ ids.
Proof.
  unfold ind_dict. rewrite <- not_eq_None_Some, <- not_elem_of_list_to_map.
  rewrite fmap_reverse, fmap_fst_zip_seq, elem_of_reverse. split; [|tauto].
  intros H. destruct (decide (k ∈ ids)); tauto.
Qed.

Lemma NoDup_omap_inj {A B} (f : A -> option B) (l : list A) :
  NoDup l -> (forall x y b, x ∈ l -> y ∈ l -> f x = Some b -> f y = Some b -> x = y) ->
  NoDup (omap f l).
Proof.
  induction l as [|x l IH]; intros Hnd Hinj; simpl; [constructor|].
  apply NoDup_cons in Hnd as [Hx Hnd].
  assert (NoDup (omap f l)) as Hl.
  { apply IH; [done|]. intros y z b Hy Hz. apply Hinj; by right. }
  destruct (f x) as [b|] eqn:Hfx; [|done].
  constructor; [|done]. intros Hb. apply list_elem_of_omap in Hb as (y & Hy & Hfy).
  apply Hx. rewrite (Hinj x y b); [done | left | by right | done | done].
Qed.

Lemma omap_total_lookup {A B} (f : A -> option B) (l : list A) (a : nat) :
  (forall x, x ∈ l -> is_Some (f x)) -> omap f l !! a = l !! a ≫= f.
Proof.
  revert a. induction l as [|x l IH]; intros a H; simpl; [done|].
  destruct (H x ltac:(left)) as [b Hb]. rewrite Hb.
  destruct a as [|a]; simpl; [by rewrite Hb|]. apply IH. intros y Hy. apply H. by right.
Qed.

Lemma length_omap_total {A B} (f : A -> option B) (l : list A) :
  (forall x, x ∈ l -> is_Some (f x)) -> length (omap f l) = length l.
Proof.
  induction l as [|x l IH]; intros H; simpl; [done|].
  destruct (H x ltac:(left)) as [b Hb]. rewrite Hb. simpl. f_equal.
  apply IH. intros y Hy. apply H. by right.
Qed.

(** The positions of lines 184-185 and what they denote. *)
Lemma slice_positions_spec (ids meta_index : list string) :
  let d := ind_dict ids in
  let P := merge_sort (fun i j : nat => (i <= j)%nat)
             (omap (fun k => d !! k) (List.filter (fun k => mem k meta_index) (map fst (map_to_list d)))) in
  NoDup P /\
  (forall i, i ∈ P <-> exists k, k ∈ ids /\ k ∈ meta_index /\ d !! k = Some i) /\
  (forall i k, i ∈ P -> ids !! i = Some k -> d !! k = Some i).
Proof.
  intros d P.
  assert (forall k, k ∈ List.filter (fun k => mem k meta_index) (map fst (map_to_list d)) <->
                    k ∈ ids /\ k ∈ meta_index) as HK.
  { intros k. rewrite list_elem_of_In, filter_In, mem_true, in_map_iff, <- (ind_dict_key ids k).
    fold d. split.
    - intros [[[k' v] [<- Hv]] Hm]. apply list_elem_of_In, elem_of_map_to_list in Hv. split; [|done].
      by exists v.
    - intros [[v Hv] Hm]. split; [|done]. exists (k, v). split; [done|].
      by apply list_elem_of_In, elem_of_map_to_list. }
  assert (forall i, i ∈ P <-> exists k, k ∈ ids /\ k ∈ meta_index /\ d !! k = Some i) as HP.
  { intros i. unfold P. rewrite merge_sort_Permutation, list_elem_of_omap.
    split.
    - intros (k & Hk & Hd). exists k. apply HK in Hk. tauto.
    - intros (k & Hk & Hm & Hd). exists k. split; [by apply HK | done]. }
  split; [|split; [exact HP|]].
  - unfold P. rewrite merge_sort_Permutation. apply NoDup_omap_inj.
    + pose proof (NoDup_fst_map_to_list d) as H.
      revert H. generalize (map_to_list d). intros l.
      induction l as [|[k v] l IH]; simpl; intros H; [constructor|].
      apply NoDup_cons in H as [Hk H].
      destruct (mem k meta_index); [|by apply IH]. constructor; [|by apply IH].
      intros Hin. apply list_elem_of_In, filter_In in Hin as [Hin _].
      apply Hk. apply list_elem_of_In. clear -Hin. induction l as [|[] l IH]; simpl in *; tauto.
    + intros x y b _ _ Hx Hy. apply ind_dict_lookup in Hx, Hy. congruence.
  - intros i k Hi Hk. apply HP in Hi as (k' & _ & _ & Hd). fold d in Hd.
    pose proof (ind_dict_lookup ids k' i Hd). congruence.
Qed.

(** Lines 182-188: whatever the trajectory index (duplicate ids included),
    the ids handed to [DistanceMatrix] are distinct, and they are exactly
    the ids of the trajectory index that occur in the sample metadata. *)
Theorem slice_distances_ids (ids : list string) {A} (dist : list (list A)) (meta_index : list string) :
  NoDup (slice_distances ids dist meta_index).2 /\
  (forall k, k ∈ (slice_distances ids dist meta_index).2 <-> k ∈ ids /\ k ∈ meta_index).
Proof.
  destruct (slice_positions_spec ids meta_index) as (Hnd & HP & Hback).
  unfold slice_distances. cbv zeta. cbn [snd].
  set (P := merge_sort _ _) in *.
  split.
  - apply NoDup_omap_inj; [done|]. intros x y k Hx Hy Ex Ey.
    pose proof (Hback x k Hx Ex). pose proof (Hback y k Hy Ey). congruence.
  - intros k. rewrite list_elem_of_omap. split.
    + intros (i & Hi & Hk). apply HP in Hi as (k' & Hk' & Hm & Hd).
      apply ind_dict_lookup in Hd. rewrite Hd in Hk. injection Hk as <-. done.
    + intros [Hk Hm]. destruct (proj2 (ind_dict_key ids k) Hk) as [i Hi].
      exists i. split; [apply HP; by exists k|]. by apply ind_dict_lookup.
Qed.

Lemma slice_entry {A} (P : list nat) (dist : list (list A)) (n : nat) (a b : nat) :
  length dist = n -> Forall (fun r => length r = n) dist -> (forall i, i ∈ P -> (i < n)%nat) ->
  map (fun row => omap (fun j => row !! j) P) (omap (fun i => dist !! i) P) !! a ≫= (fun r => r !! b) =
    P !! a ≫= (fun i => P !! b ≫= (fun j => dist !! i ≫= (fun r => r !! j))).
Proof.
  intros Hlen Hrows HP.
  rewrite lookup_map_list, omap_total_lookup
    by (intros i Hi; apply lookup_lt_is_Some; rewrite Hlen; by apply HP).
  destruct (P !! a) as [i|] eqn:Ha; simpl; [|done].
  destruct (lookup_lt_is_Some_2 dist i) as [r Hr]; [rewrite Hlen; apply HP; by eapply list_elem_of_lookup_2|].
  rewrite Hr. simpl.
  assert (length r = n) as Hrl by (rewrite Forall_lookup in Hrows; by apply (Hrows i)).
  rewrite omap_total_lookup by (intros j Hj; apply lookup_lt_is_Some; rewrite Hrl; by apply HP).
  done.
Qed.

(** Lines 182-188: when the fitted distance matrix is square over the
    trajectory index, symmetric and hollow, so is each slice handed to
    [DistanceMatrix], over its id list; each entry of the slice is the
    distance between positions of its two ids in the trajectory index. *)
Theorem slice_distances_valid {A} (ids : list string) (dist : list (list A))
    (meta_index : list string) (z : A) :
  length dist = length ids -> Forall (fun r => length r = length ids) dist ->
  (forall i j, dist !! i ≫= (fun r => r !! j) = dist !! j ≫= (fun r => r !! i)) ->
  (forall i, (i < length ids)%nat -> dist !! i ≫= (fun r => r !! i) = Some z) ->
  let D := (slice_distances ids dist meta_index).1 in
  let ks := (slice_distances ids dist meta_index).2 in
  length D = length ks /\ Forall (fun r => length r = length ks) D /\
  (forall a b, D !! a ≫= (fun r => r !! b) = D !! b ≫= (fun r => r !! a)) /\
  (forall a, (a < length ks)%nat -> D !! a ≫= (fun r => r !! a) = Some z) /\
  (forall a b x, D !! a ≫= (fun r => r !! b) = Some x ->
     exists i j, ids !! i = ks !! a /\ ids !! j = ks !! b /\ dist !! i ≫= (fun r => r !! j) = Some x).
Proof.
  intros Hlen Hrows Hsym Hhol.
  destruct (slice_positions_spec ids meta_index) as (_ & HP & _).
  unfold slice_distances. cbv zeta. cbn [fst snd].
  set (P := merge_sort _ _) in *.
  assert (forall i, i ∈ P -> (i < length ids)%nat) as HPr.
  { intros i Hi. apply HP in Hi as (k & _ & _ & Hd).
    apply ind_dict_lookup in Hd. by eapply lookup_lt_Some. }
  assert (forall i, i ∈ P -> is_Some (ids !! i)) as Hids
    by (intros i Hi; apply lookup_lt_is_Some; by apply HPr).
  assert (forall i, i ∈ P -> is_Some (dist !! i)) as Hdist
    by (intros i Hi; apply lookup_lt_is_Some; rewrite Hlen; by apply HPr).
  assert (length (omap (fun i => ids !! i) P) = length P) as Hks by (by apply length_omap_total).
  assert (forall a, omap (fun i => ids !! i) P !! a = P !! a ≫= (fun i => ids !! i)) as Hka
    by (intros a; by apply omap_total_lookup).
  pose proof (fun a b => slice_entry P dist (length ids) a b Hlen Hrows HPr) as He.
  rewrite Hks. split; [|split; [|split; [|split]]].
  - by rewrite length_map, length_omap_total.
  - apply Forall_map, Forall_forall. intros r Hr.
    apply list_elem_of_omap in Hr as (i & Hi & Hr).
    apply length_omap_total. intros j Hj. apply lookup_lt_is_Some.
    rewrite Forall_lookup in Hrows. rewrite (Hrows i r Hr). by apply HPr.
  - intros a b. rewrite !He.
    destruct (P !! a) as [i|], (P !! b) as [j|]; simpl; [apply Hsym | done | done | done].
  - intros a Ha. rewrite He. destruct (lookup_lt_is_Some_2 P a Ha) as [i Hi]. rewrite Hi. simpl.
    apply Hhol, HPr. by eapply list_elem_of_lookup_2.
  - intros a b x. rewrite He, !Hka.
    destruct (P !! a) as [i|], (P !! b) as [j|]; simpl; try discriminate.
    intros Hx. by exists i, j.
Qed.

Lemma slice_distances_valid_witness :
  let D := (slice_distances ["b"; "a"; "b"] [[0; 1; 2]; [1; 0; 3]; [2; 3; 0]] ["a"; "b"]).1 in
  let ks := (slice_distances ["b"; "a"; "b"] [[0; 1; 2]; [1; 0; 3]; [2; 3; 0]] ["a"; "b"]).2 in
  length D = length ks /\ Forall (fun r => length r = length ks) D /\
  (forall a b, D !! a ≫= (fun r => r !! b) = D !! b ≫= (fun r => r !! a)) /\
  (forall a, (a < length ks)%nat -> D !! a ≫= (fun r => r !! a) = Some 0) /\
  (forall a b x, D !! a ≫= (fun r => r !! b) = Some x ->
     exists i j, ["b"; "a"; "b"] !! i = ks !! a /\ ["b"; "a"; "b"] !! j = ks !! b /\
       [[0; 1; 2]; [1; 0; 3]; [2; 3; 0]] !! i ≫= (fun r => r !! j) = Some x).
Proof.
  apply (slice_distances_valid ["b"; "a"; "b"] [[0; 1; 2]; [1; 0; 3]; [2; 3; 0]] ["a"; "b"] 0).
  - reflexivity.
  - repeat constructor.
  - intros [|[|[|i]]] [|[|[|j]]]; reflexivity.
  - intros [|[|[|i]]] H; [reflexivity | reflexivity | reflexivity | simpl in H; lia].
Defined.

(** On that input, the duplicated id "b" is kept once, at its last
    position. *)
Example slice_distances_duplicate_id :
  slice_distances ["b"; "a"; "b"] [[0; 1; 2]; [1; 0; 3]; [2; 3; 0]] ["a"; "b"] =
    ([[0; 3]; [3; 0]], ["a"; "b"]).
Proof. reflexivity. Qed.

(* ------------------------------------------------------------------ *)
(** ** The index of the subject trajectory tables *)

Lemma str_le_trans (a b c : string) : str_le a b -> str_le b c -> str_le a c.
Proof.
  unfold str_le, String.leb. revert b c.
  induction a as [|x a IH]; intros [|y b] [|z c]; simpl; try done.
  unfold Ascii.compare.
  destruct (N.compare_spec (Ascii.N_of_ascii x) (Ascii.N_of_ascii y)),
           (N.compare_spec (Ascii.N_of_ascii y) (Ascii.N_of_ascii z)),
           (N.compare_spec (Ascii.N_of_ascii x) (Ascii.N_of_ascii z));
    try lia; try done.
  apply IH.
Qed.

Global Instance str_le_total : Total str_le.
Proof. intros a b. unfold str_le. apply String.leb_total. Qed.

Global Instance str_le_transitive : Transitive str_le.
Proof. intros a b c. apply str_le_trans. Qed.

Lemma StronglySorted_sublist {A} (R : relation A) (l1 l2 : list A) :
  l1 `sublist_of` l2 -> StronglySorted R l2 -> StronglySorted R l1.
Proof.
  induction 1 as [|x l1 l2 Hs IH|x l1 l2 Hs IH]; intros H; [constructor| |].
  - apply StronglySorted_inv in H as [H Hx]. constructor; [by apply IH|].
    apply Forall_forall. intros y Hy. rewrite Forall_forall in Hx. apply Hx.
    by eapply elem_of_sublist.
  - apply StronglySorted_inv in H as [H _]. by apply IH.
Qed.

(** Lines 192-198: for sample metadata with distinct ids, the subject
    trajectory table of each condition lists its ids in ascending string
    order, each at most once, all taken from the sample metadata. *)
Theorem subject_trajectory_index (straj all_sample_metadata : frame string) :
  NoDup (index all_sample_metadata) ->
  StronglySorted str_le (index (subject_trajectory_out straj all_sample_metadata)) /\
  NoDup (index (subject_trajectory_out straj all_sample_metadata)) /\
  index (subject_trajectory_out straj all_sample_metadata) `sublist_of`
    merge_sort str_le (index all_sample_metadata).
Proof.
  intros Hnd.
  assert (index (subject_trajectory_out straj all_sample_metadata) `sublist_of`
            merge_sort str_le (index all_sample_metadata)) as Hs.
  { unfold subject_trajectory_out, dropna_subset, filter_rows, concat_cols. cbn [index].
    rewrite combined_index_same. apply mask_list_sublist. }
  split; [|split; [|exact Hs]].
  - eapply StronglySorted_sublist; [exact Hs|].
    apply Sorted_StronglySorted; [apply _|]. apply Sorted_merge_sort, _.
  - eapply sublist_NoDup; [|exact Hs]. by rewrite merge_sort_Permutation.
Qed.

Lemma subject_trajectory_index_witness :
  NoDup (index example_aux) /\
  StronglySorted str_le (index (subject_trajectory_out example_straj example_aux)) /\
  NoDup (index (subject_trajectory_out example_straj example_aux)) /\
  index (subject_trajectory_out example_straj example_aux) `sublist_of`
    merge_sort str_le (index example_aux).
Proof.
  assert (NoDup (index example_aux)) as H by (apply has_dup_false_iff; reflexivity).
  split; [exact H|]. exact (subject_trajectory_index example_straj example_aux H).
Defined.

(* ------------------------------------------------------------------ *)
(** ** When the ordination step raises *)

(** Lines 164-171: building the ordination raises only [KeyError], on an
    axis column of the feature table that the subject table lacks; when
    it succeeds, every such axis column is a subject column. *)
Theorem ctf_ordination_key_error (tf : tf_result) :
  match ctf_ordination tf with
  | Raise e => exists n, e = KeyError n /\ n ∈ keep_PC tf /\ n ∉ col_names (subjects tf)
  | Ok _ => forall n, n ∈ keep_PC tf -> n ∈ col_names (subjects tf)
  end.
Proof.
  unfold ctf_ordination, mbind, pyres_bind, mret, pyres_ret. cbv zeta.
  unfold select_cols at 1.
  destruct (list_find (fun n => n ∉ col_names (subjects tf)) (keep_PC tf)) as [[i m]|] eqn:E.
  - apply list_find_Some in E as (Hi & Hm & _). exists m. split; [done|].
    split; [by eapply list_elem_of_lookup_2 | done].
  - unfold select_cols. rewrite (list_find_all_present (keep_PC tf) (col_names (features tf)))
      by apply keep_PC_in_features.
    apply list_find_None in E. rewrite Forall_forall in E.
    intros n Hn. destruct (decide (n ∈ col_names (subjects tf))); [done|]. by exfalso; apply (E n).
Qed.

(** With the example factorization, renaming the subject axis "PC2"
    to "Axis2" makes the step raise [KeyError] on "PC2". *)
Example ctf_ordination_key_error_example :
  ctf_ordination (mktf (with_columns (subjects example_tf2)
                          [mkcol "PC1" DFloat [CNum 1; CNum 2]; mkcol "Axis2" DFloat [CNum 3; CNum 4]])
                       (features example_tf2) (proportion_explained example_tf2) (eigvals example_tf2))
  = Raise (KeyError "PC2").
Proof. reflexivity. Qed.


(* ------------------------------------------------------------------ *)
(** ** The per-condition dicts and the [ctf] wrapper *)

Lemma assoc_map_set {V} (k k' : string) (v : V) (d : list (string * V)) :
  assoc k (map (fun kv => if String.eqb kv.1 k' then (k', v) else kv) d) =
    if String.eqb k k' then (if bool_decide (k' ∈ d.*1) then Some v else None) else assoc k d.
Proof.
  unfold assoc. induction d as [|[k0 x] d IH]; simpl.
  - by destruct (String.eqb k k').
  - destruct (String.eqb_spec k0 k') as [->|Hne]; simpl.
    + destruct (String.eqb_spec k' k) as [->|Hne']; simpl.
      * rewrite String.eqb_refl, bool_decide_eq_true_2 by set_solver. done.
      * rewrite IH. destruct (String.eqb_spec k k'); [congruence|done].
    + destruct (String.eqb_spec k0 k) as [->|Hne']; simpl.
      * destruct (String.eqb_spec k k'); [congruence|done].
      * rewrite IH. destruct (String.eqb_spec k k') as [->|]; [|done].
        case_bool_decide as H1; case_bool_decide as H2; try done; exfalso.
        -- apply H2. by right.
        -- apply H1. apply elem_of_cons in H2 as [H2|H2]; [congruence|done].
Qed.

Lemma assoc_app_new {V} (k k' : string) (v : V) (d : list (string * V)) :
  k' ∉ d.*1 -> assoc k (d ++ [(k', v)]) = if String.eqb k k' then Some v else assoc k d.
Proof.
  unfold assoc. induction d as [|[k0 x] d IH]; simpl; intros Hk'.
  - rewrite String.eqb_sym. by destruct (String.eqb k k').
  - destruct (String.eqb_spec k0 k) as [->|Hne]; simpl.
    + destruct (String.eqb_spec k k') as [->|]; [|done]. exfalso. apply Hk'. left.
    + apply IH. intros H. apply Hk'. by right.
Qed.

Lemma assoc_dict_set {V} (k k' : string) (v : V) (d : list (string * V)) :
  assoc k (py_dict_set k' v d) = if String.eqb k k' then Some v else assoc k d.
Proof.
  unfold py_dict_set. case_bool_decide as H.
  - rewrite assoc_map_set, bool_decide_eq_true_2 by done. done.
  - by apply assoc_app_new.
Qed.

Lemma last_cons_match {A} (x : A) (l : list A) :
  last (x :: l) = match last l with Some y => Some y | None => Some x end.
Proof.
  revert x. induction l as [|y l IH]; intros x; [done|].
  change (last (x :: y :: l)) with (last (y :: l)). rewrite (IH y). by destruct (last l).
Qed.

Lemma last_map_list {A B} (f : A -> B) (l : list A) : last (map f l) = f <$> last l.
Proof.
  induction l as [|x l IH]; [done|]. cbn [map]. rewrite !last_cons_match, IH. by destruct (last l).
Qed.

Lemma assoc_fold_set {I V} (g : I -> V) (key : I -> string) (k : string) (items : list I)
    (d : list (string * V)) :
  assoc k (fold_left (fun d it => py_dict_set (key it) (g it) d) items d) =
    match last (map g (List.filter (fun it => String.eqb (key it) k) items)) with
    | Some v => Some v
    | None => assoc k d
    end.
Proof.
  revert d. induction items as [|it items IH]; intros d; simpl; [done|].
  rewrite IH, assoc_dict_set, String.eqb_sym.
  destruct (String.eqb (key it) k); simpl; [|done].
  rewrite last_cons_match. by destruct (last _).
Qed.

Lemma dict_set_head {V} (k : string) (v : V) (d : list (string * V)) k0 x0 d' :
  d = (k0, x0) :: d' -> exists x d'', py_dict_set k v d = (k0, x) :: d''.
Proof.
  intros ->. unfold py_dict_set. case_bool_decide; simpl; eauto.
  destruct (String.eqb_spec k0 k) as [->|]; eauto.
Qed.

Lemma fold_set_head {I V} (g : I -> V) (key : I -> string) (items : list I) (d : list (string * V)) k0 x0 d' :
  d = (k0, x0) :: d' ->
  exists x d'', fold_left (fun d it => py_dict_set (key it) (g it) d) items d = (k0, x) :: d''.
Proof.
  revert d x0 d'. induction items as [|it items IH]; intros d x0 d' Hd; simpl; [by eauto|].
  destruct (dict_set_head (key it) (g it) d k0 x0 d' Hd) as (x & d'' & E).
  by apply (IH _ x d'').
Qed.

Lemma assoc_head {V} (k : string) (x : V) (d : list (string * V)) : assoc k ((k, x) :: d) = Some x.
Proof. unfold assoc. simpl. by rewrite String.eqb_refl. Qed.

(** The first value of a dict filled from [items] in order: the value
    last assigned to the first key assigned. *)
Lemma first_value_fold {I V} (g : I -> V) (key : I -> string) (items : list I) :
  match fold_left (fun d it => py_dict_set (key it) (g it) d) items [] with
  | (_, v) :: _ =>
      match items with
      | it :: _ => last (map g (List.filter (fun it' => String.eqb (key it') (key it)) items)) = Some v
      | [] => False
      end
  | [] => items = []
  end.
Proof.
  destruct items as [|it items]; [done|]. simpl.
  destruct (fold_set_head g key items (py_dict_set (key it) (g it) []) (key it) (g it) [] eq_refl)
    as (x & d'' & E).
  rewrite E.
  pose proof (assoc_fold_set g key (key it) items (py_dict_set (key it) (g it) [])) as H.
  rewrite E, assoc_head in H. simpl. rewrite String.eqb_refl. cbv iota. cbn [map].
  rewrite last_cons_match. rewrite assoc_dict_set, String.eqb_refl in H.
  destruct (last (map g (List.filter _ items))); congruence.
Qed.

Lemma condition_dicts_split {A}
    (items : list (string * ((list (list A) * list string) * frame string * frame string))) :
  condition_dicts items =
    (fold_left (fun d it => py_dict_set it.1 it.2.1.1 d) items [],
     fold_left (fun d it => py_dict_set it.1 it.2.1.2 d) items [],
     fold_left (fun d it => py_dict_set it.1 it.2.2 d) items []).
Proof.
  unfold condition_dicts.
  assert (forall l1 l2 l3,
    fold_left (fun '(ds, ss, fs) '(c, (d, s, f)) =>
                 (py_dict_set c d ds, py_dict_set c s ss, py_dict_set c f fs)) items (l1, l2, l3) =
    (fold_left (fun d it => py_dict_set it.1 it.2.1.1 d) items l1,
     fold_left (fun d it => py_dict_set it.1 it.2.1.2 d) items l2,
     fold_left (fun d it => py_dict_set it.1 it.2.2 d) items l3)) as H.
  { induction items as [|[c [[d s] f]] items IH]; intros l1 l2 l3; simpl; [done|]. apply IH. }
  apply H.
Qed.

(** Lines 42-46 with the dicts of lines 174-202: [ctf] returns, for the
    first condition of the loop, the distance matrix and trajectories of
    the last iteration on that condition (the only one when conditions are
    distinct); it raises [IndexError] when the loop ran no iteration. *)
Theorem ctf_outputs_first_condition {A} (ord : ordination)
    (items : list (string * ((list (list A) * list string) * frame string * frame string))) :
  ctf_outputs ord (condition_dicts items) =
    match items with
    | [] => None
    | (c, _) :: _ =>
        (fun x => (ord, x.1.1, x.1.2, x.2)) <$>
          last (map snd (List.filter (fun it => String.eqb it.1 c) items))
    end.
Proof.
  rewrite condition_dicts_split. unfold ctf_outputs.
  pose proof (first_value_fold (fun it => it.2.1.1) fst items) as H1.
  pose proof (first_value_fold (fun it => it.2.1.2) fst items) as H2.
  pose proof (first_value_fold (fun it => it.2.2) fst items) as H3.
  destruct items as [|[c x] items]; [done|]. cbn [fst] in *.
  destruct (fold_left _ _ []) as [|[? d0] ?]; [done|].
  destruct (fold_left _ _ []) as [|[? s0] ?]; [done|].
  destruct (fold_left _ _ []) as [|[? f0] ?]; [done|].
  rewrite <- (map_map snd (fun x => x.1.1)) in H1.
  rewrite <- (map_map snd (fun x => x.1.2)) in H2.
  rewrite <- (map_map snd (fun x => x.2)) in H3.
  destruct (last (map snd (List.filter (fun it => String.eqb it.1 c) ((c, x) :: items)))) as [y|] eqn:E.
  - rewrite last_map_list, E in H1. rewrite last_map_list, E in H2.
    rewrite last_map_list, E in H3. simpl in *. congruence.
  - rewrite last_map_list, E in H1. discriminate.
Qed.

(** With the conditions "t1", "t2", "t1", the dicts have the keys "t1"
    and "t2", and [ctf] returns the outputs of the third iteration. *)
Example ctf_outputs_repeated_condition :
  let it (c : string) (n : Z) : string * ((list (list Z) * list string) * frame string * frame string) :=
    (c, (([[n]], [c]), mkframe [] None [], mkframe [] None [])) in
  let ord := mkord "CTF_Biplot" "" (mkframe [] None []) (mkframe [] None []) (mkframe [] None [])
                   (mkframe [] None []) in
  (condition_dicts [it "t1" 1; it "t2" 2; it "t1" 3]).1.1.*1 = ["t1"; "t2"] /\
  ctf_outputs ord (condition_dicts [it "t1" 1; it "t2" 2; it "t1" 3]) =
    Some (ord, ([[3]], ["t1"]), mkframe [] None [], mkframe [] None []).
Proof. split; reflexivity. Qed.
